(** * Azazel job-search client: a shallow embedding of the React components

    The repository is the web client of a job-search agent.  Each component
    keeps its state in [useState] cells and changes it through event
    handlers; requests go out through axios.  A component is modelled as a
    record of its state cells, every handler as a function on that record,
    and the requests a handler issues as a list of effects returned next to
    the new state.  A handler runs against the last committed render, so the
    cell it reads and the [prev] handed to its updater are the same state.

    JavaScript strings are modelled by [string]; a character stands for a
    UTF-16 code unit in the range U+0000..U+00FF.  JavaScript numbers that
    hold counts are modelled by [Z]; [NaN] is the [None] of [option Z]. *)

From Stdlib Require Import ZArith QArith Qminmax Qround String Ascii List Lia.
From stdpp Require Import base list strings gmap pretty.

Local Open Scope string_scope.
Local Open Scope list_scope.
Local Open Scope Z_scope.

(** ** JavaScript primitives used by the components *)

Module JS.

(** WhiteSpace and LineTerminator code units below U+0100: TAB, LF, VT, FF,
    CR, SP and NBSP. *)
Definition is_white_space (c : ascii) : bool :=
  let n := nat_of_ascii c in
  ((9 <=? n)%nat && (n <=? 13)%nat) || (n =? 32)%nat || (n =? 160)%nat.

(** [String.prototype.trimStart] *)
Fixpoint trimStart (s : string) : string :=
  match s with
  | EmptyString => EmptyString
  | String c s' => if is_white_space c then trimStart s' else s
  end.

(** [String.prototype.trimEnd] *)
Fixpoint trimEnd (s : string) : string :=
  match s with
  | EmptyString => EmptyString
  | String c s' =>
      match trimEnd s' with
      | EmptyString => if is_white_space c then EmptyString else String c EmptyString
      | t => String c t
      end
  end.

(** [String.prototype.trim] *)
Definition trim (s : string) : string := trimEnd (trimStart s).

(** ToBoolean on a string: the empty string is the only falsy one. *)
Definition truthy (s : string) : bool :=
  match s with EmptyString => false | String _ _ => true end.

(** [Array.prototype.includes] on an array of strings. *)
Definition includes (l : list string) (x : string) : bool := bool_decide (x ∈ l).

(** Value of a digit in radix [R] (10 or 16), if the code unit is one. *)
Definition digit_of (R : Z) (c : ascii) : option Z :=
  let n := Z.of_nat (nat_of_ascii c) in
  let d := if (48 <=? n) && (n <=? 57) then Some (n - 48)
           else if (97 <=? n) && (n <=? 122) then Some (n - 87)
           else if (65 <=? n) && (n <=? 90) then Some (n - 55)
           else None in
  match d with
  | Some v => if v <? R then Some v else None
  | None => None
  end.

(** The longest prefix of radix-[R] digits, read as a number; [acc] is
    [None] until a digit has been seen. *)
Fixpoint parse_digits (R : Z) (s : string) (acc : option Z) : option Z :=
  match s with
  | EmptyString => acc
  | String c s' =>
      match digit_of R c with
      | Some d => parse_digits R s' (Some (R * default 0 acc + d))
      | None => acc
      end
  end.

(** [parseInt(s)] with no radix argument: leading white space is skipped, a
    sign is read, a [0x]/[0X] prefix selects radix 16, and the digits that
    follow are read up to the first code unit that is not one.  [None] is
    [NaN]. *)
Definition parseInt (s : string) : option Z :=
  let s1 := trimStart s in
  let '(sign, s2) :=
    match s1 with
    | String "-" r => (-1, r)
    | String "+" r => (1, r)
    | _ => (1, s1)
    end in
  let '(R, s3) :=
    match s2 with
    | String "0" (String "x" r) => (16, r)
    | String "0" (String "X" r) => (16, r)
    | _ => (10, s2)
    end in
  match parse_digits R s3 None with
  | Some m => Some (sign * m)
  | None => None
  end.

(** [n || d] on a number that may be [NaN]: [NaN] and [0] are falsy. *)
Definition or_number (n : option Z) (d : Z) : Z :=
  match n with
  | Some z => if z =? 0 then d else z
  | None => d
  end.

(** [String(n)] for an integer or [NaN]. *)
Definition number_to_string (n : option Z) : string :=
  match n with
  | Some z => pretty z
  | None => "NaN"
  end.

(** The build-time value of [process.env.REACT_APP_BACKEND_URL]: a string,
    or [undefined] when the variable is not set. *)
Definition Env := option string.

(** A template literal prints [undefined] as the word itself. *)
Definition template_env (e : Env) : string := default "undefined" e.

(** The property names every object inherits from [Object.prototype]: a
    read of one of them on an object that has no such property of its own
    finds a function or an object, not [undefined]. *)
Definition prototype_names : list string :=
  ["constructor"; "__defineGetter__"; "__defineSetter__"; "hasOwnProperty";
   "__lookupGetter__"; "__lookupSetter__"; "isPrototypeOf"; "propertyIsEnumerable";
   "toString"; "valueOf"; "__proto__"; "toLocaleString"].

(** The first code unit of a string, if it has one. *)
Definition first_unit (s : string) : option ascii :=
  match s with
  | EmptyString => None
  | String c _ => Some c
  end.

(** The last code unit of a string, if it has one. *)
Fixpoint last_unit (s : string) : option ascii :=
  match s with
  | EmptyString => None
  | String c EmptyString => Some c
  | String _ s' => last_unit s'
  end.

(** The string is not empty and neither starts nor ends with white
    space. *)
Definition no_outer_space (s : string) : Prop :=
  s ≠ EmptyString
  /\ (forall c, first_unit s = Some c -> is_white_space c = false)
  /\ (forall c, last_unit s = Some c -> is_white_space c = false).

End JS.

(** ** Job Discovery form (frontend/src/components/JobDiscovery.js) *)

Module JobDiscovery.

Definition API (BACKEND_URL : JS.Env) : string := JS.template_env BACKEND_URL +:+ "/api".

Record SearchParams := {
  keywords : list string;
  location : string;
  jobType : string;
  platforms : list string;
  maxResultsPerPlatform : Z
}.

(** The body of a [POST /api/jobs/search] request; [sd_platforms = None] is
    the JSON [null]. *)
Record SearchData := {
  sd_keywords : list string;
  sd_location : string;
  sd_job_type : string;
  sd_platforms : option (list string);
  sd_max_results_per_platform : Z
}.

(** [response.data] of a search: [{search_id, platforms[]}]. *)
Record SearchResponse := {
  search_id : string;
  resp_platforms : list string
}.

Record State := {
  searchParams : SearchParams;
  isSearching : bool;
  searchResults : option SearchResponse;
  newKeyword : string
}.

Definition initialState : State := {|
  searchParams := {|
    keywords := ["machine learning"; "AI"; "translation"; "linguistic"; "quality assessment"];
    location := "";
    jobType := "remote";
    platforms := [];
    maxResultsPerPlatform := 50
  |};
  isSearching := false;
  searchResults := None;
  newKeyword := ""
|}.

(** Ids of the platform table rendered as check boxes. *)
Definition platform_ids : list string :=
  ["flexjobs"; "remotive"; "weworkremotely"; "remote_co"; "contra"; "toptal"; "upwork"].

Definition setSearchParams (f : SearchParams -> SearchParams) (st : State) : State :=
  {| searchParams := f (searchParams st);
     isSearching := isSearching st;
     searchResults := searchResults st;
     newKeyword := newKeyword st |}.

Definition setNewKeyword (v : string) (st : State) : State :=
  {| searchParams := searchParams st;
     isSearching := isSearching st;
     searchResults := searchResults st;
     newKeyword := v |}.

Definition setIsSearching (b : bool) (st : State) : State :=
  {| searchParams := searchParams st;
     isSearching := b;
     searchResults := searchResults st;
     newKeyword := newKeyword st |}.

Definition setSearchResults (r : option SearchResponse) (st : State) : State :=
  {| searchParams := searchParams st;
     isSearching := isSearching st;
     searchResults := r;
     newKeyword := newKeyword st |}.

Definition with_keywords (ks : list string) (prev : SearchParams) : SearchParams :=
  {| keywords := ks; location := location prev; jobType := jobType prev;
     platforms := platforms prev; maxResultsPerPlatform := maxResultsPerPlatform prev |}.

Definition with_location (v : string) (prev : SearchParams) : SearchParams :=
  {| keywords := keywords prev; location := v; jobType := jobType prev;
     platforms := platforms prev; maxResultsPerPlatform := maxResultsPerPlatform prev |}.

Definition with_jobType (v : string) (prev : SearchParams) : SearchParams :=
  {| keywords := keywords prev; location := location prev; jobType := v;
     platforms := platforms prev; maxResultsPerPlatform := maxResultsPerPlatform prev |}.

Definition with_platforms (ps : list string) (prev : SearchParams) : SearchParams :=
  {| keywords := keywords prev; location := location prev; jobType := jobType prev;
     platforms := ps; maxResultsPerPlatform := maxResultsPerPlatform prev |}.

Definition with_maxResultsPerPlatform (n : Z) (prev : SearchParams) : SearchParams :=
  {| keywords := keywords prev; location := location prev; jobType := jobType prev;
     platforms := platforms prev; maxResultsPerPlatform := n |}.

(** [handleKeywordAdd]: the guard reads the rendered [searchParams] and
    [newKeyword]; the updater appends the trimmed keyword and the input box
    is cleared. *)
Definition handleKeywordAdd (st : State) : State :=
  if JS.truthy (JS.trim (newKeyword st))
     && negb (JS.includes (keywords (searchParams st)) (JS.trim (newKeyword st)))
  then
    setNewKeyword ""
      (setSearchParams
         (fun prev => with_keywords (keywords prev ++ [JS.trim (newKeyword st)]) prev) st)
  else st.

(** [handleKeywordRemove] *)
Definition handleKeywordRemove (keyword : string) (st : State) : State :=
  setSearchParams
    (fun prev => with_keywords (filter (fun k => k ≠ keyword) (keywords prev)) prev) st.

(** The updater of [handlePlatformToggle] on the list of selected ids. *)
Definition toggle (platformId : string) (selected : list string) : list string :=
  if JS.includes selected platformId
  then filter (fun p => p ≠ platformId) selected
  else selected ++ [platformId].

(** [handlePlatformToggle] *)
Definition handlePlatformToggle (platformId : string) (st : State) : State :=
  setSearchParams (fun prev => with_platforms (toggle platformId (platforms prev)) prev) st.

(** [onChange] of the Max Results input: [parseInt(e.target.value) || 50]. *)
Definition handleMaxResultsChange (value : string) (st : State) : State :=
  setSearchParams
    (fun prev => with_maxResultsPerPlatform (JS.or_number (JS.parseInt value) 50) prev) st.

(** The object [searchData] built by [handleSearch]. *)
Definition searchData (sp : SearchParams) : SearchData :=
  {| sd_keywords := keywords sp;
     sd_location := location sp;
     sd_job_type := jobType sp;
     sd_platforms := if (0 <? length (platforms sp))%nat then Some (platforms sp) else None;
     sd_max_results_per_platform := maxResultsPerPlatform sp |}.

(** Requests issued by the component. *)
Inductive Request :=
| PostJobsSearch (body : SearchData).

Definition request_url (BACKEND_URL : JS.Env) (r : Request) : string :=
  match r with
  | PostJobsSearch _ => API BACKEND_URL +:+ "/jobs/search"
  end.

(** The [disabled] attribute of the search button. *)
Definition search_disabled (st : State) : bool :=
  isSearching st || (length (keywords (searchParams st)) =? 0)%nat.

(** [handleSearch] up to the [await]: the flags are set and the request
    leaves with the rendered [searchParams]. *)
Definition handleSearch (st : State) : State * list Request :=
  (setSearchResults None (setIsSearching true st),
   [PostJobsSearch (searchData (searchParams st))]).

(** [handleSearch] after the [await]: the [try] branch stores the response,
    the [catch] branch only alerts, [finally] clears the flag.  The alert
    between the two updates is modal, so no event of the form falls between
    them and they are taken as one step. *)
Definition searchSettled (r : option SearchResponse) (st : State) : State :=
  match r with
  | Some data => setIsSearching false (setSearchResults (Some data) st)
  | None => setIsSearching false st
  end.

(** What the user and the network can do to the form. *)
Inductive Event :=
| NewKeywordInput (value : string)
| NewKeywordKeyPress (key : string)
| ClickAdd
| ClickRemove (keyword : string)
| LocationInput (value : string)
| JobTypeSelect (value : string)
| PlatformCheck (platformId : string)
| MaxResultsInput (value : string)
| ClickSearch
| SearchSettled (r : option SearchResponse).

(** One event: the new state and the requests it sends.  A disabled button
    delivers no click. *)
Definition step (st : State) (ev : Event) : State * list Request :=
  match ev with
  | NewKeywordInput v => (setNewKeyword v st, [])
  | NewKeywordKeyPress key =>
      (if String.eqb key "Enter" then handleKeywordAdd st else st, [])
  | ClickAdd => (handleKeywordAdd st, [])
  | ClickRemove k => (handleKeywordRemove k st, [])
  | LocationInput v => (setSearchParams (with_location v) st, [])
  | JobTypeSelect v => (setSearchParams (with_jobType v) st, [])
  | PlatformCheck p => (handlePlatformToggle p st, [])
  | MaxResultsInput v => (handleMaxResultsChange v st, [])
  | ClickSearch => if search_disabled st then (st, []) else handleSearch st
  | SearchSettled r => (searchSettled r st, [])
  end.

(** A session: the events in order, with the requests sent along the way. *)
Fixpoint run (st : State) (evs : list Event) : State * list Request :=
  match evs with
  | [] => (st, [])
  | ev :: evs' =>
      let '(st1, out1) := step st ev in
      let '(st2, out2) := run st1 evs' in
      (st2, out1 ++ out2)
  end.

Definition state_after (st : State) (evs : list Event) : State := (run st evs).1.

Definition requests (st : State) (evs : list Event) : list Request := (run st evs).2.

(** The keyword list of a state. *)
Definition keywords_of (st : State) : list string := keywords (searchParams st).

(** The platform selection of a state. *)
Definition selection (st : State) : list string := platforms (searchParams st).

(** A keyword that is not empty and is its own trim. *)
Definition trimmed (k : string) : Prop := k ≠ EmptyString ∧ JS.trim k = k.

(** The shape of the keyword list: no entry twice, every entry trimmed and
    not blank. *)
Definition keywords_ok (ks : list string) : Prop := NoDup ks ∧ Forall trimmed ks.

(** The form after the user removed every keyword. *)
Definition cleared_form : State :=
  setSearchParams (with_keywords []) initialState.

(** The form with two platforms ticked, in this order. *)
Definition two_platforms_form : State :=
  state_after initialState [PlatformCheck "flexjobs"; PlatformCheck "remotive"].

(** The platform count named in the success alert:
    [searchData.platforms?.length || 7]. *)
Definition alert_platform_count (body : SearchData) : Z :=
  JS.or_number (option_map (fun ps => Z.of_nat (length ps)) (sd_platforms body)) 7.

(** Events the rendered form can deliver: there is a check box only for
    the platforms of the table. *)
Definition rendered (ev : Event) : Prop :=
  match ev with
  | PlatformCheck p => p ∈ platform_ids
  | _ => True
  end.

(** The selection holds known platforms, each at most once. *)
Definition selection_ok (ps : list string) : Prop :=
  NoDup ps /\ forall p, p ∈ ps -> p ∈ platform_ids.

(** The event is the end of a pending search. *)
Definition is_settled (ev : Event) : bool :=
  match ev with
  | SearchSettled _ => true
  | _ => false
  end.

(** How many searches came to an end during the events. *)
Definition settled_count (evs : list Event) : nat :=
  length (List.filter is_settled evs).

End JobDiscovery.


(** ** URLSearchParams and its serialisation *)

Module URLSearchParams.

(** The entry list of a [URLSearchParams] object. *)
Definition t := list (string * string).

Definition empty : t := [].

(** [params.append(name, value)] *)
Definition append (name value : string) (ps : t) : t := ps ++ [(name, value)].

(** UTF-8 bytes of a code unit below U+0100. *)
Definition utf8 (c : ascii) : list ascii :=
  let n := nat_of_ascii c in
  if (n <? 128)%nat then [c]
  else [ascii_of_nat (192 + n / 64); ascii_of_nat (128 + n mod 64)].

Definition hex_digit (n : nat) : ascii :=
  match String.get n "0123456789ABCDEF" with
  | Some c => c
  | None => "0"%char
  end.

(** Bytes the urlencoded serialiser leaves as they are: [*], [-], [.], [_],
    digits and letters. *)
Definition is_plain (b : ascii) : bool :=
  let n := nat_of_ascii b in
  ((n =? 42) || (n =? 45) || (n =? 46) || (n =? 95)
   || ((48 <=? n) && (n <=? 57))
   || ((65 <=? n) && (n <=? 90))
   || ((97 <=? n) && (n <=? 122)))%nat.

(** One byte through the application/x-www-form-urlencoded serialiser. *)
Definition encode_byte (b : ascii) : string :=
  let n := nat_of_ascii b in
  if (n =? 32)%nat then "+"
  else if is_plain b then String b EmptyString
  else String "%" (String (hex_digit (n / 16)) (String (hex_digit (n mod 16)) EmptyString)).

Definition encode_unit (c : ascii) : string :=
  String.concat "" (map encode_byte (utf8 c)).

Fixpoint encode (s : string) : string :=
  match s with
  | EmptyString => EmptyString
  | String c s' => encode_unit c +:+ encode s'
  end.

Definition encode_entry (e : string * string) : string :=
  encode (fst e) +:+ "=" +:+ encode (snd e).

(** [params.toString()], also what [`${params}`] prints. *)
Definition toString (ps : t) : string :=
  String.concat "&" (map encode_entry ps).

(** [s.split(sep)] for a one-character separator. *)
Fixpoint split_on (sep : ascii) (s : string) : list string :=
  match s with
  | EmptyString => [EmptyString]
  | String c s' =>
      if Ascii.eqb c sep then EmptyString :: split_on sep s'
      else match split_on sep s' with
           | p :: ps => String c p :: ps
           | [] => [String c EmptyString]
           end
  end.

(** Name and value of one piece: it is cut at the first [sep]. *)
Fixpoint split_first (sep : ascii) (s : string) : string * string :=
  match s with
  | EmptyString => (EmptyString, EmptyString)
  | String c s' =>
      if Ascii.eqb c sep then (EmptyString, s')
      else let '(n, v) := split_first sep s' in (String c n, v)
  end.

(** The name/value pieces of a query string as they stand on the wire
    (still encoded): cut at [&], empty pieces dropped, each cut at its
    first [=]. *)
Definition raw_entries (q : string) : list (string * string) :=
  map (split_first "=") (filter (fun p => p ≠ EmptyString) (split_on "&" q)).

(** No character of [s] is [sep]. *)
Fixpoint free_of (sep : ascii) (s : string) : bool :=
  match s with
  | EmptyString => true
  | String c s' => negb (Ascii.eqb c sep) && free_of sep s'
  end.


(** Value of a hexadecimal digit. *)
Definition hex_value (c : ascii) : option nat :=
  let n := nat_of_ascii c in
  if ((48 <=? n) && (n <=? 57))%nat then Some (n - 48)%nat
  else if ((65 <=? n) && (n <=? 70))%nat then Some (n - 55)%nat
  else if ((97 <=? n) && (n <=? 102))%nat then Some (n - 87)%nat
  else None.

(** The bytes a serialised text stands for, as the urlencoded parser reads
    them: [+] is a space, [%XX] is the byte XX, anything else is itself. *)
Fixpoint decode_bytes (s : string) : list ascii :=
  match s with
  | EmptyString => []
  | String c r =>
      if Ascii.eqb c "+" then " "%char :: decode_bytes r
      else if Ascii.eqb c "%" then
        match r with
        | String h (String l r') =>
            match hex_value h, hex_value l with
            | Some a, Some b => ascii_of_nat (16 * a + b) :: decode_bytes r'
            | _, _ => c :: decode_bytes r
            end
        | _ => c :: decode_bytes r
        end
      else c :: decode_bytes r
  end.

(** The code units a UTF-8 byte sequence stands for, on the part of UTF-8
    that encodes code units below U+0100: one byte below 128, or a lead
    byte C2 or C3 with one continuation byte.  Other sequences stand for
    nothing in that range and read as a question mark. *)
Fixpoint utf8_units (bs : list ascii) : string :=
  match bs with
  | [] => EmptyString
  | b :: r =>
      let n := nat_of_ascii b in
      if (n <? 128)%nat then String b (utf8_units r)
      else
        match r with
        | b2 :: r' =>
            let m := nat_of_ascii b2 in
            if ((194 <=? n) && (n <=? 195) && (128 <=? m) && (m <=? 191))%nat
            then String (ascii_of_nat ((n - 192) * 64 + (m - 128))) (utf8_units r')
            else String "?" (utf8_units r)
        | [] => String "?" EmptyString
        end
  end.

(** A serialised name or value read back. *)
Definition decode (s : string) : string := utf8_units (decode_bytes s).

(** A query string read back into its entries. *)
Definition parse (q : string) : t :=
  map (fun e => (decode e.1, decode e.2)) (raw_entries q).

End URLSearchParams.

(** ** Job List page (src/unnamed/part_002) *)

Module JobList.

Definition API (BACKEND_URL : JS.Env) : string := JS.template_env BACKEND_URL +:+ "/api".

(** The [filters] cell; [limit] is [parseInt] of the selected option. *)
Record Filters := {
  source : string;
  applied : string;
  limit : option Z
}.

Definition initialFilters : Filters :=
  {| source := ""; applied := ""; limit := Some 50 |}.

Definition setSource (v : string) (prev : Filters) : Filters :=
  {| source := v; applied := applied prev; limit := limit prev |}.

Definition setApplied (v : string) (prev : Filters) : Filters :=
  {| source := source prev; applied := v; limit := limit prev |}.

Definition setLimit (v : string) (prev : Filters) : Filters :=
  {| source := source prev; applied := applied prev; limit := JS.parseInt v |}.

(** The [params] object [fetchJobs] builds from the filters. *)
Definition fetchJobs_params (filters : Filters) : URLSearchParams.t :=
  let params := URLSearchParams.empty in
  let params :=
    if JS.truthy (source filters)
    then URLSearchParams.append "source" (source filters) params else params in
  let params :=
    if negb (String.eqb (applied filters) "")
    then URLSearchParams.append "applied" (applied filters) params else params in
  URLSearchParams.append "limit" (JS.number_to_string (limit filters)) params.

(** The query string of the request. *)
Definition fetchJobs_query (filters : Filters) : string :=
  URLSearchParams.toString (fetchJobs_params filters).

Inductive Call :=
| FetchJobs (filters : Filters)
| GenerateCoverLetter (jobId : string)
| CreateApplication (jobId cover_letter_id : string)
| DeleteJob (jobId : string).

Definition call_url (BACKEND_URL : JS.Env) (c : Call) : string :=
  match c with
  | FetchJobs filters => API BACKEND_URL +:+ "/jobs?" +:+ fetchJobs_query filters
  | GenerateCoverLetter _ => API BACKEND_URL +:+ "/cover-letters/generate"
  | CreateApplication _ _ => API BACKEND_URL +:+ "/applications"
  | DeleteJob jobId => API BACKEND_URL +:+ "/jobs/" +:+ jobId
  end.

(** The keyword chips of a job card: [keywords_matched.slice(0, 3)]. *)
Definition shown_keywords (keywords_matched : list string) : list string :=
  take 3 keywords_matched.

(** The number in the [+N more] label of a job card, when the label is
    rendered: [keywords_matched.length > 3 && keywords_matched.length - 3]. *)
Definition more_keywords (keywords_matched : list string) : option Z :=
  if (3 <? length keywords_matched)%nat
  then Some (Z.of_nat (length keywords_matched) - 3)
  else None.

End JobList.

(** ** Applications page (frontend/src/components/Applications.js) *)

Module Applications.

Definition API (BACKEND_URL : JS.Env) : string := JS.template_env BACKEND_URL +:+ "/api".

Definition fetchApplications_params (statusFilter : string) : URLSearchParams.t :=
  if JS.truthy statusFilter
  then URLSearchParams.append "status" statusFilter URLSearchParams.empty
  else URLSearchParams.empty.

Inductive Call :=
| FetchApplications (statusFilter : string)
| UpdateApplicationStatus (applicationId newStatus : string)
| SendApplicationEmail (applicationId : string).

Definition call_url (BACKEND_URL : JS.Env) (c : Call) : string :=
  match c with
  | FetchApplications statusFilter =>
      API BACKEND_URL +:+ "/applications?"
        +:+ URLSearchParams.toString (fetchApplications_params statusFilter)
  | UpdateApplicationStatus applicationId _ =>
      API BACKEND_URL +:+ "/applications/" +:+ applicationId +:+ "/status"
  | SendApplicationEmail _ => API BACKEND_URL +:+ "/emails/send-application"
  end.

(** The query string of [fetchApplications]. *)
Definition fetchApplications_query (statusFilter : string) : string :=
  URLSearchParams.toString (fetchApplications_params statusFilter).

End Applications.

(** ** encodeURIComponent *)

Module URI.

(** Code units [encodeURIComponent] leaves as they are: letters, digits
    and [- _ . ! ~ * ' ( )]. *)
Definition is_unreserved (c : ascii) : bool :=
  let n := nat_of_ascii c in
  (((48 <=? n) && (n <=? 57))
   || ((65 <=? n) && (n <=? 90))
   || ((97 <=? n) && (n <=? 122))
   || (n =? 45) || (n =? 95) || (n =? 46) || (n =? 33) || (n =? 126)
   || (n =? 42) || (n =? 39) || (n =? 40) || (n =? 41))%nat.

(** A byte as [%XX]. *)
Definition percent (b : ascii) : string :=
  let n := nat_of_ascii b in
  String "%" (String (URLSearchParams.hex_digit (n / 16))
                (String (URLSearchParams.hex_digit (n mod 16)) EmptyString)).

Definition encode_unit (c : ascii) : string :=
  if is_unreserved c then String c EmptyString
  else String.concat "" (map percent (URLSearchParams.utf8 c)).

(** [encodeURIComponent(s)] on code units below U+0100. *)
Fixpoint encodeURIComponent (s : string) : string :=
  match s with
  | EmptyString => EmptyString
  | String c s' => encode_unit c +:+ encodeURIComponent s'
  end.

End URI.

(** ** Cover Letters page (frontend/src/components/CoverLetters.js) *)

Module CoverLetters.

Definition API (BACKEND_URL : JS.Env) : string := JS.template_env BACKEND_URL +:+ "/api".

Inductive Call :=
| FetchLetters
| FetchUnappliedJobs
| GenerateCoverLetter (jobId : string).

Definition call_url (BACKEND_URL : JS.Env) (c : Call) : string :=
  match c with
  | FetchLetters => API BACKEND_URL +:+ "/cover-letters"
  | FetchUnappliedJobs => API BACKEND_URL +:+ "/jobs?applied=false&limit=20"
  | GenerateCoverLetter _ => API BACKEND_URL +:+ "/cover-letters/generate"
  end.

(** A cover letter as the page reads it. *)
Record Letter := {
  id : string;
  job_id : string;
  job_title : string;
  company : string;
  content : string
}.

(** A job offered for generation. *)
Record Job := {
  jid : string;
  title : string
}.

Record State := {
  coverLetters : list Letter;
  jobs : list Job;
  loading : bool;
  error : option string;
  selectedLetter : option Letter;
  generatingFor : option string
}.

Definition initialState : State :=
  {| coverLetters := []; jobs := []; loading := true; error := None;
     selectedLetter := None; generatingFor := None |}.

#[global] Instance Letter_eq_dec : EqDecision Letter.
Proof. solve_decision. Defined.

(** The Generate button of a job is rendered for the first six jobs, once
    the page has loaded, and is disabled while that job is the one being
    generated for. *)
Definition generate_enabled (st : State) (jobId : string) : bool :=
  negb (loading st)
  && bool_decide (jobId ∈ map jid (take 6 (jobs st)))
  && negb (bool_decide (generatingFor st = Some jobId)).

(** [generateCoverLetter] up to the [await]. *)
Definition generateCoverLetter (jobId : string) (st : State) : State * list Call :=
  ({| coverLetters := coverLetters st; jobs := jobs st; loading := loading st;
      error := error st; selectedLetter := selectedLetter st;
      generatingFor := Some jobId |},
   [GenerateCoverLetter jobId]).

(** [generateCoverLetter] after the [await]: a new letter goes to the front
    of the list and is selected; [finally] clears [generatingFor]. *)
Definition generateSettled (r : option Letter) (st : State) : State :=
  match r with
  | Some data =>
      {| coverLetters := data :: coverLetters st; jobs := jobs st;
         loading := loading st; error := error st;
         selectedLetter := Some data; generatingFor := None |}
  | None =>
      {| coverLetters := coverLetters st; jobs := jobs st; loading := loading st;
         error := error st; selectedLetter := selectedLetter st;
         generatingFor := None |}
  end.

(** [fetchData] up to the [await]. *)
Definition fetchData (st : State) : State * list Call :=
  ({| coverLetters := coverLetters st; jobs := jobs st; loading := true;
      error := error st; selectedLetter := selectedLetter st;
      generatingFor := generatingFor st |},
   [FetchLetters; FetchUnappliedJobs]).

(** [fetchData] after the [await]. *)
Definition fetchSettled (r : option (list Letter * list Job)) (st : State) : State :=
  match r with
  | Some (letters, js) =>
      {| coverLetters := letters; jobs := js; loading := false; error := None;
         selectedLetter := selectedLetter st; generatingFor := generatingFor st |}
  | None =>
      {| coverLetters := coverLetters st; jobs := jobs st; loading := false;
         error := Some "Failed to load cover letters";
         selectedLetter := selectedLetter st; generatingFor := generatingFor st |}
  end.

Definition setSelectedLetter (l : option Letter) (st : State) : State :=
  {| coverLetters := coverLetters st; jobs := jobs st; loading := loading st;
     error := error st; selectedLetter := l; generatingFor := generatingFor st |}.

Inductive Event :=
| ClickGenerate (jobId : string)
| GenerateSettled (r : option Letter)
| ClickRefresh
| FetchSettled (r : option (list Letter * list Job))
| ClickLetter (letter : Letter)
| ClickClose.

Definition step (st : State) (ev : Event) : State * list Call :=
  match ev with
  | ClickGenerate jobId =>
      if generate_enabled st jobId then generateCoverLetter jobId st else (st, [])
  | GenerateSettled r => (generateSettled r st, [])
  | ClickRefresh => if loading st then (st, []) else fetchData st
  | FetchSettled r => (fetchSettled r st, [])
  | ClickLetter letter =>
      (if negb (loading st) && bool_decide (letter ∈ coverLetters st)
       then setSelectedLetter (Some letter) st else st, [])
  | ClickClose =>
      (if negb (loading st) then setSelectedLetter None st else st, [])
  end.

(** On mount the page loads its lists. *)
Definition mount : State * list Call := fetchData initialState.

Fixpoint run (st : State) (evs : list Event) : State * list Call :=
  match evs with
  | [] => (st, [])
  | ev :: evs' =>
      let '(st1, out1) := step st ev in
      let '(st2, out2) := run st1 evs' in
      (st2, out1 ++ out2)
  end.

(** The letters that generations brought back during the events, oldest
    first. *)
Fixpoint generated (evs : list Event) : list Letter :=
  match evs with
  | [] => []
  | GenerateSettled (Some data) :: evs' => data :: generated evs'
  | _ :: evs' => generated evs'
  end.

(** No reload of the lists came back during the events. *)
Fixpoint no_reload (evs : list Event) : bool :=
  match evs with
  | [] => true
  | FetchSettled (Some _) :: _ => false
  | _ :: evs' => no_reload evs'
  end.

(** The Word Count of the detail pane: [content.split(' ').length]. *)
Definition wordCount (text : string) : nat :=
  length (URLSearchParams.split_on " " text).

(** How many spaces the text holds. *)
Fixpoint spaces (text : string) : nat :=
  match text with
  | EmptyString => 0
  | String c text' => ((if Ascii.eqb c " " then 1 else 0) + spaces text')%nat
  end.

(** The part after [mailto:?] of the address opened by Open in Email
    Client. *)
Definition mailto_query (letter : Letter) : string :=
  "subject="
    +:+ URI.encodeURIComponent ("Application for " +:+ job_title letter +:+ " position")
    +:+ "&body=" +:+ URI.encodeURIComponent (content letter).

Definition mailto (letter : Letter) : string := "mailto:?" +:+ mailto_query letter.

End CoverLetters.

(** ** Application shell (frontend/src/App.js) *)

Module App.

Definition API (BACKEND_URL : JS.Env) : string := JS.template_env BACKEND_URL +:+ "/api".

Inductive Call :=
| CheckApiHealth.

Definition call_url (BACKEND_URL : JS.Env) (c : Call) : string :=
  match c with
  | CheckApiHealth => API BACKEND_URL +:+ "/health"
  end.

(** What happens to the status indicator: a probe comes back, or the user
    clicks Refresh. *)
Inductive Event :=
| HealthSettled (ok : bool)
| ClickRefresh.

(** The initial [apiStatus]. *)
Definition initialStatus : string := "checking".

(** On mount the first probe leaves. *)
Definition mount : string * list Call := (initialStatus, [CheckApiHealth]).

(** [checkApiHealth]: the probe leaves at once; its outcome sets the
    status. *)
Definition step (apiStatus : string) (ev : Event) : string * list Call :=
  match ev with
  | HealthSettled true => ("connected", [])
  | HealthSettled false => ("disconnected", [])
  | ClickRefresh => (apiStatus, [CheckApiHealth])
  end.

Fixpoint run (apiStatus : string) (evs : list Event) : string * list Call :=
  match evs with
  | [] => (apiStatus, [])
  | ev :: evs' =>
      let '(st1, out1) := step apiStatus ev in
      let '(st2, out2) := run st1 evs' in
      (st2, out1 ++ out2)
  end.

(** The text of the indicator. *)
Definition status_label (apiStatus : string) : string :=
  if String.eqb apiStatus "connected" then "Connected"
  else if String.eqb apiStatus "disconnected" then "Disconnected"
  else "Checking...".

(** The outcome of the last probe that came back, if any did. *)
Fixpoint last_outcome (evs : list Event) : option bool :=
  match evs with
  | [] => None
  | HealthSettled ok :: evs' =>
      match last_outcome evs' with
      | Some later => Some later
      | None => Some ok
      end
  | ClickRefresh :: evs' => last_outcome evs'
  end.

End App.

(** ** Profile page (src/unnamed/part_000) *)

Module Profile.

Definition API (BACKEND_URL : JS.Env) : string := JS.template_env BACKEND_URL +:+ "/api".

(** Values read from the profile object; [VObject] stands for an object
    or a function that is not an array, such as the members every object
    inherits. *)
#[warnings="-register-all"]
Inductive value :=
| VUndefined
| VNull
| VNum (n : Z)
| VStr (s : string)
| VArr (items : list value)
| VObject.

(** [formData] is a JavaScript object used as a map from field names to
    values. *)
Abbreviation FormData := (gmap string value).

(** [formData[field]]: an own property reads as its value; a name the
    object does not hold reads as the inherited member when it is one of
    [Object.prototype], and as [undefined] otherwise. *)
Definition get (field : string) (formData : FormData) : value :=
  match formData !! field with
  | Some v => v
  | None => if bool_decide (field ∈ JS.prototype_names) then VObject else VUndefined
  end.

(** [[...v]]: arrays are copied, strings spread into their characters, and
    anything else is not iterable ([TypeError], here [None]). *)
Definition spread (v : value) : option (list value) :=
  match v with
  | VArr items => Some items
  | VStr s => Some (map (fun c => VStr (String c EmptyString)) (list_ascii_of_string s))
  | _ => None
  end.

(** [a.splice(index, 1)] for an index that counts from the front. *)
Definition splice1 (index : nat) (a : list value) : list value := delete index a.

(** [a[index] = v]: in range the slot is overwritten, past the end the
    array grows and the skipped slots read as [undefined]. *)
Definition assign (index : nat) (v : value) (a : list value) : list value :=
  if (index <? length a)%nat then <[index := v]> a
  else a ++ replicate (index - length a) VUndefined ++ [v].

(** [updateArrayField] *)
Definition updateArrayField (field : string) (index : nat) (v : string)
    (formData : FormData) : option FormData :=
  match spread (get field formData) with
  | None => None
  | Some newArray =>
      let newArray :=
        if String.eqb v "" then splice1 index newArray
        else assign index (VStr v) newArray in
      Some (<[field := VArr newArray]> formData)
  end.

(** [prev[field] || []] *)
Definition or_empty (v : value) : value :=
  match v with
  | VUndefined | VNull | VNum 0 | VStr EmptyString => VArr []
  | _ => v
  end.

(** [addToArrayField] *)
Definition addToArrayField (field : string) (formData : FormData) : option FormData :=
  match spread (or_empty (get field formData)) with
  | None => None
  | Some items => Some (<[field := VArr (items ++ [VStr ""])]> formData)
  end.

Inductive Call :=
| FetchProfile
| SaveProfile (formData : FormData).

Definition call_url (BACKEND_URL : JS.Env) (c : Call) : string :=
  match c with
  | FetchProfile => API BACKEND_URL +:+ "/profile"
  | SaveProfile _ => API BACKEND_URL +:+ "/profile"
  end.

End Profile.

(** ** Analytics page (src/unnamed/part_001) *)

Module Analytics.

Definition API (BACKEND_URL : JS.Env) : string := JS.template_env BACKEND_URL +:+ "/api".

(** A number computed by the page: a finite value, kept as an exact
    rational, or what a division by zero leaves ([NaN] or an infinity). *)
Inductive number :=
| Finite (q : Q)
| NotFinite.

(** [a / b] on two counts. *)
Definition div (a b : Z) : number :=
  if b =? 0 then NotFinite else Finite (inject_Z a / inject_Z b)%Q.

(** [x * k] for a finite constant [k]. *)
Definition mul (x : number) (k : Z) : number :=
  match x with
  | Finite q => Finite (q * inject_Z k)%Q
  | NotFinite => NotFinite
  end.

(** [analytics.metrics]: the counts sent by the dashboard endpoint, by name. *)
Abbreviation Metrics := (gmap string Z).

(** [metrics.name || 0] *)
Definition metric (name : string) (metrics : Metrics) : Z :=
  JS.or_number (metrics !! name) 0.

Record EmailLog := {
  recipient_email : string;
  subject : string;
  status : string
}.

Definition totalApplications (metrics : Metrics) : Z := metric "total_applications" metrics.

Definition rate (count total : Z) : number :=
  if 0 <? total then mul (div count total) 100 else Finite 0.

Definition interviewRate (metrics : Metrics) : number :=
  rate (metric "interviewing" metrics) (totalApplications metrics).

Definition rejectionRate (metrics : Metrics) : number :=
  rate (metric "rejected" metrics) (totalApplications metrics).

Definition pendingRate (metrics : Metrics) : number :=
  rate (metric "pending_applications" metrics) (totalApplications metrics).

Definition sentEmails (emailLogs : list EmailLog) : nat :=
  length (filter (fun log => status log = "sent") emailLogs).

Definition failedEmails (emailLogs : list EmailLog) : nat :=
  length (filter (fun log => status log = "failed") emailLogs).

Definition emailSuccessRate (emailLogs : list EmailLog) : number :=
  if (0 <? length emailLogs)%nat
  then mul (div (Z.of_nat (sentEmails emailLogs)) (Z.of_nat (length emailLogs))) 100
  else Finite 0.

(** The number lies in the closed interval from [lo] to [hi]. *)
Definition in_range (lo hi : Z) (x : number) : Prop :=
  match x with
  | Finite q => (inject_Z lo <= q /\ q <= inject_Z hi)%Q
  | NotFinite => False
  end.

Inductive Call :=
| FetchDashboard
| FetchEmailLogs.

Definition call_url (BACKEND_URL : JS.Env) (c : Call) : string :=
  match c with
  | FetchDashboard => API BACKEND_URL +:+ "/analytics/dashboard"
  | FetchEmailLogs => API BACKEND_URL +:+ "/emails/logs"
  end.

(** An entry of [recent_jobs], as far as the page reads it. *)
Record Job := {
  source : string
}.

(** What a slot of [jobSourceCounts] holds: a count, or the text that
    [+ 1] makes of a value that is not a number. *)
Inductive tally :=
| Count (n : Z)
| NotACount.

(** The property names every object inherits from [Object.prototype]; a
    read of one of them on a fresh object finds a function or an object,
    not [undefined]. *)
Definition inherited_names : list string :=
  ["constructor"; "__defineGetter__"; "__defineSetter__"; "hasOwnProperty";
   "__lookupGetter__"; "__lookupSetter__"; "isPrototypeOf"; "propertyIsEnumerable";
   "toString"; "valueOf"; "__proto__"; "toLocaleString"].

(** One round of the [forEach]:
    [jobSourceCounts[k] = (jobSourceCounts[k] || 0) + 1].  A count grows by
    one; a missing slot starts at 1 unless the name is inherited, in which
    case the inherited value is truthy and [+ 1] makes a text of it; that
    text is stored, except under [__proto__], whose setter drops it. *)
Definition bump (k : string) (counts : gmap string tally) : gmap string tally :=
  match counts !! k with
  | Some (Count n) => <[k := Count (JS.or_number (Some n) 0 + 1)]> counts
  | Some NotACount => <[k := NotACount]> counts
  | None =>
      if bool_decide (k ∈ inherited_names)
      then if String.eqb k "__proto__" then counts else <[k := NotACount]> counts
      else <[k := Count 1]> counts
  end.

(** The object [jobSourceCounts] after the [forEach] over [recentJobs]. *)
Definition jobSourceCounts (recentJobs : list Job) : gmap string tally :=
  foldl (fun counts job => bump (source job) counts) ∅ recentJobs.

(** How many of the jobs come from the source [s]. *)
Definition jobs_from (s : string) (recentJobs : list Job) : nat :=
  length (filter (fun job => source job = s) recentJobs).

(** The slot that stands for a count of [n] jobs: none at all for 0. *)
Definition slot_of (n : Z) : option tally :=
  if n =? 0 then None else Some (Count n).

(** [Math.round(x)]: the nearest integer, a half going up; what is not a
    finite number stays so ([None]). *)
Definition round (x : number) : option Z :=
  match x with
  | Finite q => Some (Qfloor (q + (1 # 2)))
  | NotFinite => None
  end.

(** The share shown next to a source:
    [Math.round((count / recentJobs.length) * 100)]. *)
Definition source_percent (count : Z) (recentJobs : list Job) : option Z :=
  round (mul (div count (Z.of_nat (length recentJobs))) 100).

(** The Application Rate tile; a missing [total_jobs_discovered] is
    [undefined], which is not greater than 0. *)
Definition applicationRate (metrics : Metrics) : option Z :=
  match metrics !! "total_jobs_discovered" with
  | Some discovered =>
      if 0 <? discovered
      then round (mul (div (totalApplications metrics) discovered) 100)
      else Some 0
  | None => Some 0
  end.

End Analytics.

(** ** Every request of the client *)

Module Client.

Inductive Call :=
| InApp (c : App.Call)
| InJobDiscovery (r : JobDiscovery.Request)
| InJobList (c : JobList.Call)
| InApplications (c : Applications.Call)
| InCoverLetters (c : CoverLetters.Call)
| InAnalytics (c : Analytics.Call)
| InProfile (c : Profile.Call).

(** The URL handed to axios. *)
Definition url (BACKEND_URL : JS.Env) (c : Call) : string :=
  match c with
  | InApp c => App.call_url BACKEND_URL c
  | InJobDiscovery r => JobDiscovery.request_url BACKEND_URL r
  | InJobList c => JobList.call_url BACKEND_URL c
  | InApplications c => Applications.call_url BACKEND_URL c
  | InCoverLetters c => CoverLetters.call_url BACKEND_URL c
  | InAnalytics c => Analytics.call_url BACKEND_URL c
  | InProfile c => Profile.call_url BACKEND_URL c
  end.

(** What follows [API] in the URL of a call. *)
Definition path (c : Call) : string :=
  match c with
  | InApp App.CheckApiHealth => "/health"
  | InJobDiscovery (JobDiscovery.PostJobsSearch _) => "/jobs/search"
  | InJobList (JobList.FetchJobs filters) => "/jobs?" +:+ JobList.fetchJobs_query filters
  | InJobList (JobList.GenerateCoverLetter _) => "/cover-letters/generate"
  | InJobList (JobList.CreateApplication _ _) => "/applications"
  | InJobList (JobList.DeleteJob jobId) => "/jobs/" +:+ jobId
  | InApplications (Applications.FetchApplications statusFilter) =>
      "/applications?"
        +:+ URLSearchParams.toString (Applications.fetchApplications_params statusFilter)
  | InApplications (Applications.UpdateApplicationStatus applicationId _) =>
      "/applications/" +:+ applicationId +:+ "/status"
  | InApplications (Applications.SendApplicationEmail _) => "/emails/send-application"
  | InCoverLetters CoverLetters.FetchLetters => "/cover-letters"
  | InCoverLetters CoverLetters.FetchUnappliedJobs => "/jobs?applied=false&limit=20"
  | InCoverLetters (CoverLetters.GenerateCoverLetter _) => "/cover-letters/generate"
  | InAnalytics Analytics.FetchDashboard => "/analytics/dashboard"
  | InAnalytics Analytics.FetchEmailLogs => "/emails/logs"
  | InProfile _ => "/profile"
  end.

End Client.

(** ** Backend contracts the client relies on *)

Module Backend.

Inductive Error :=
| ValidationError
| NotFoundError
| AdapterError
| GenerationError
| EmailDeliveryError
| ConcurrencyConflict.

(** Modelled from the spec: the Discovery Orchestrator is not part of the
    client sources.  [StartSearch] rejects an empty keyword set with
    [ValidationError] and otherwise returns the identifier of the new
    search at once; [fresh] is the identifier the store hands out. *)
Definition StartSearch (fresh : string) (body : JobDiscovery.SearchData)
    : Error + string :=
  match JobDiscovery.sd_keywords body with
  | [] => inl ValidationError
  | _ :: _ => inr fresh
  end.

(** The upper-case letters below U+0100: A to Z, and U+00C0 to U+00DE
    without the multiplication sign U+00D7. *)
Definition is_upper (c : ascii) : bool :=
  let n := nat_of_ascii c in
  (((65 <=? n) && (n <=? 90))
   || ((192 <=? n) && (n <=? 222) && negb (n =? 215)))%nat.

(** Lower case of a code unit: an upper-case letter goes to the code unit
    32 above it, every other code unit stays. *)
Definition to_lower (c : ascii) : ascii :=
  if is_upper c then ascii_of_nat (nat_of_ascii c + 32) else c.

(** The string with every code unit in lower case. *)
Fixpoint lowercase (s : string) : string :=
  match s with
  | EmptyString => EmptyString
  | String c s' => String (to_lower c) (lowercase s')
  end.

(** [needle] occurs in [hay]. *)
Fixpoint is_substring (needle hay : string) : bool :=
  String.prefix needle hay
  || match hay with
     | EmptyString => false
     | String _ hay' => is_substring needle hay'
     end.

(** Modelled from the spec: [lower] is the lower-case form of the
    upper-case letter [upper], stated on the code points: the letter is one
    of A to Z or of U+00C0 to U+00DE other than U+00D7, and its lower-case
    form lies 32 above it. *)
Definition case_pair (upper lower : ascii) : Prop :=
  (((65 <= nat_of_ascii upper)%nat /\ (nat_of_ascii upper <= 90)%nat)
   \/ ((192 <= nat_of_ascii upper)%nat /\ (nat_of_ascii upper <= 222)%nat
       /\ nat_of_ascii upper ≠ 215%nat))
  /\ nat_of_ascii lower = (nat_of_ascii upper + 32)%nat.

(** Modelled from the spec: two code units are the same when case is
    ignored. *)
Definition same_letter (c d : ascii) : Prop :=
  c = d \/ case_pair c d \/ case_pair d c.

(** Modelled from the spec: two texts are the same when case is ignored. *)
Fixpoint same_ignoring_case (s t : string) : Prop :=
  match s, t with
  | EmptyString, EmptyString => True
  | String c s', String d t' => same_letter c d /\ same_ignoring_case s' t'
  | _, _ => False
  end.

(** Modelled from the spec: [needle] is a case-insensitive substring of
    [hay]: some stretch of [hay] is [needle] when case is ignored. *)
Definition occurs_ignoring_case (needle hay : string) : Prop :=
  exists before stretch after,
    hay = before +:+ stretch +:+ after /\ same_ignoring_case stretch needle.

(** Modelled from the spec: the Relevance Scorer is not part of the client
    sources.  A profile keyword matches when it is a case-insensitive
    substring of the job text; [matched_keywords] lists the distinct
    matching keywords in the order the profile supplies them. *)
Definition matched_keywords (job_text : string) (profile_keywords : list string)
    : list string :=
  remove_dups
    (filter (fun k => is_substring (lowercase k) (lowercase job_text) = true)
       profile_keywords).

(** Modelled from the spec: the score is the number of distinct matching
    keywords over the number of profile keywords, capped at 1; a profile
    without keywords scores 0. *)
Definition score (job_text : string) (profile_keywords : list string) : Q :=
  match profile_keywords with
  | [] => 0%Q
  | _ :: _ =>
      Qmin 1 (inject_Z (Z.of_nat (length (matched_keywords job_text profile_keywords)))
              / inject_Z (Z.of_nat (length profile_keywords)))%Q
  end.

(** Modelled from the spec: [Score(job_text, profile_keywords)] returns the
    score together with the matched keywords. *)
Definition Score (job_text : string) (profile_keywords : list string)
    : Q * list string :=
  (score job_text profile_keywords, matched_keywords job_text profile_keywords).

(** A job text and a profile to try the scorer on; the text ends in CAFE
    with U+00C9 for its last letter, the third keyword is the same word in
    lower case, with U+00E9. *)
Definition sample_job_text : string :=
  "Senior MACHINE Learning engineer at CAF" +:+ String "201"%char EmptyString.

Definition sample_cafe : string := "caf" +:+ String "233"%char EmptyString.

Definition sample_keywords : list string := ["machine learning"; "rust"; sample_cafe].

End Backend.


(** * Properties *)

(** ** Trimming *)

Section Trim.

Import JS.

Lemma trimStart_head s c t : trimStart s = String c t -> is_white_space c = false.
Proof.
  induction s as [|a s IH]; simpl; [discriminate|].
  destruct (is_white_space a) eqn:Ha; [exact IH|].
  intros [= -> _]. exact Ha.
Qed.

Lemma trimEnd_keeps_head c s :
  is_white_space c = false -> exists t, trimEnd (String c s) = String c t.
Proof.
  intros Hc. simpl. destruct (trimEnd s); rewrite ?Hc; eauto.
Qed.

Lemma trimEnd_idem s : trimEnd (trimEnd s) = trimEnd s.
Proof.
  induction s as [|c s IH]; simpl; [reflexivity|].
  destruct (trimEnd s) as [|d t] eqn:Hs.
  - destruct (is_white_space c) eqn:Hc; simpl; rewrite ?Hc; reflexivity.
  - change (trimEnd (String c (String d t))) with
      (match trimEnd (String d t) with
       | EmptyString => if is_white_space c then EmptyString else String c EmptyString
       | u => String c u
       end).
    rewrite IH. reflexivity.
Qed.

Lemma trim_idem s : trim (trim s) = trim s.
Proof.
  unfold trim. destruct (trimStart s) as [|c u] eqn:Hu; [reflexivity|].
  pose proof (trimStart_head _ _ _ Hu) as Hc.
  destruct (trimEnd_keeps_head c u Hc) as [t Ht].
  rewrite Ht. simpl trimStart. rewrite Hc, <- Ht. apply trimEnd_idem.
Qed.

Lemma truthy_nonempty s : truthy s = true <-> s ≠ EmptyString.
Proof. destruct s; simpl; split; congruence. Qed.

Lemma includes_elem_of l x : includes l x = true <-> x ∈ l.
Proof. unfold includes. apply bool_decide_eq_true. Qed.

Lemma includes_not_elem_of l x : includes l x = false <-> x ∉ l.
Proof. unfold includes. apply bool_decide_eq_false. Qed.

End Trim.

(** ** The Job Discovery form *)

Section JobDiscoveryFacts.

Import JobDiscovery.

Lemma run_cons_state st ev evs :
  state_after st (ev :: evs) = state_after (step st ev).1 evs.
Proof.
  unfold state_after. simpl.
  destruct (step st ev) as [st1 out1]; simpl.
  destruct (run st1 evs); reflexivity.
Qed.

Lemma run_cons_requests st ev evs :
  requests st (ev :: evs) = (step st ev).2 ++ requests (step st ev).1 evs.
Proof.
  unfold requests. simpl.
  destruct (step st ev) as [st1 out1]; simpl.
  destruct (run st1 evs); reflexivity.
Qed.

(** Only a click on the enabled search button sends a request, and the
    request carries the rendered search parameters. *)
Lemma step_request st ev r :
  r ∈ (step st ev).2 ->
  ev = ClickSearch /\ search_disabled st = false
  /\ r = PostJobsSearch (searchData (searchParams st)).
Proof.
  destruct ev; simpl; try (intros H; inversion H; fail).
  destruct (search_disabled st) eqn:Hd; simpl.
  - intros H; inversion H.
  - intros H. apply list_elem_of_singleton in H. auto.
Qed.

(** Every request of a session was sent by some click on the enabled
    button, with the parameters of the state the click found. *)
Lemma run_request st evs r :
  r ∈ requests st evs ->
  exists evs1 evs2,
    evs = evs1 ++ ClickSearch :: evs2
    /\ search_disabled (state_after st evs1) = false
    /\ r = PostJobsSearch (searchData (searchParams (state_after st evs1))).
Proof.
  revert st. induction evs as [|ev evs IH]; intros st.
  - intros H; inversion H.
  - rewrite run_cons_requests. intros [H|H]%elem_of_app.
    + apply step_request in H as (-> & Hd & ->).
      exists [], evs. auto.
    + destruct (IH _ H) as (evs1 & evs2 & -> & Hd & ->).
      exists (ev :: evs1), evs2. rewrite run_cons_state. auto.
Qed.

Lemma search_disabled_false st :
  search_disabled st = false -> keywords_of st ≠ [].
Proof.
  unfold search_disabled, keywords_of.
  destruct (keywords (searchParams st)); simpl; [|discriminate].
  rewrite orb_true_r. discriminate.
Qed.

Lemma handleKeywordAdd_keywords st :
  let k := JS.trim (newKeyword st) in
  (k ≠ EmptyString /\ k ∉ keywords_of st ->
     keywords_of (handleKeywordAdd st) = keywords_of st ++ [k])
  /\ (~ (k ≠ EmptyString /\ k ∉ keywords_of st) -> handleKeywordAdd st = st).
Proof.
  unfold handleKeywordAdd, keywords_of. simpl.
  destruct (JS.truthy (JS.trim (newKeyword st))) eqn:Ht;
    destruct (JS.includes (keywords (searchParams st)) (JS.trim (newKeyword st))) eqn:Hi;
    simpl; split; try reflexivity; intros H.
  - apply includes_elem_of in Hi. tauto.
  - apply truthy_nonempty in Ht. apply includes_not_elem_of in Hi. tauto.
  - apply not_true_iff_false in Ht. rewrite truthy_nonempty in Ht. tauto.
  - apply not_true_iff_false in Ht. rewrite truthy_nonempty in Ht. tauto.
Qed.

Lemma handleKeywordAdd_ok st :
  keywords_ok (keywords_of st) -> keywords_ok (keywords_of (handleKeywordAdd st)).
Proof.
  intros [Hnd Hall].
  destruct (decide (JS.trim (newKeyword st) ≠ EmptyString
                    /\ JS.trim (newKeyword st) ∉ keywords_of st)) as [[Hne Hni]|Hn].
  - rewrite (proj1 (handleKeywordAdd_keywords st)) by auto. split.
    + apply NoDup_app. split_and!; [done| |apply NoDup_singleton].
      intros x Hx ->%list_elem_of_singleton. contradiction.
    + apply Forall_app. split; [done|].
      apply Forall_singleton. split; [done|apply trim_idem].
  - rewrite (proj2 (handleKeywordAdd_keywords st)) by auto. by split.
Qed.

Lemma handleKeywordRemove_ok k st :
  keywords_ok (keywords_of st) -> keywords_ok (keywords_of (handleKeywordRemove k st)).
Proof.
  intros [Hnd Hall]. unfold keywords_of. simpl. split.
  - by apply NoDup_filter.
  - eapply Forall_impl; [|intros x Hx; exact Hx].
    apply Forall_forall. intros x [_ Hx]%list_elem_of_filter.
    rewrite Forall_forall in Hall. auto.
Qed.

Lemma step_keywords_ok st ev :
  keywords_ok (keywords_of st) -> keywords_ok (keywords_of (step st ev).1).
Proof.
  intros Hok. destruct ev; simpl; try exact Hok.
  - destruct (String.eqb key "Enter"); [by apply handleKeywordAdd_ok|exact Hok].
  - by apply handleKeywordAdd_ok.
  - by apply handleKeywordRemove_ok.
  - destruct (search_disabled st); exact Hok.
  - destruct r; exact Hok.
Qed.

Lemma run_keywords_ok st evs :
  keywords_ok (keywords_of st) -> keywords_ok (keywords_of (state_after st evs)).
Proof.
  revert st. induction evs as [|ev evs IH]; intros st Hok; [exact Hok|].
  rewrite run_cons_state. apply IH, step_keywords_ok, Hok.
Qed.

Lemma initial_keywords_ok : keywords_ok (keywords_of initialState).
Proof.
  split.
  - unfold keywords_of; simpl. apply (bool_decide_unpack _). vm_compute. exact I.
  - unfold keywords_of; simpl. repeat constructor; discriminate.
Qed.

Lemma filter_ne_absent (p : string) (l : list string) :
  p ∉ l -> filter (fun q => q ≠ p) l = l.
Proof.
  induction l as [|x l IH]; [reflexivity|].
  intros [Hx Hl]%not_elem_of_cons.
  rewrite filter_cons_True by congruence. by rewrite IH.
Qed.

Lemma toggle_absent p l : p ∉ l -> toggle p l = l ++ [p].
Proof.
  intros H. unfold toggle. apply includes_not_elem_of in H. by rewrite H.
Qed.

Lemma toggle_present p l : p ∈ l -> toggle p l = filter (fun q => q ≠ p) l.
Proof.
  intros H. unfold toggle. apply includes_elem_of in H. by rewrite H.
Qed.

Lemma filter_ne_not_elem (p : string) (l : list string) :
  p ∉ filter (fun q => q ≠ p) l.
Proof. intros [H _]%list_elem_of_filter. congruence. Qed.

Lemma toggle_NoDup p l : NoDup l -> NoDup (toggle p l).
Proof.
  intros Hnd. destruct (decide (p ∈ l)) as [Hin|Hni].
  - rewrite toggle_present by done. by apply NoDup_filter.
  - rewrite toggle_absent by done. apply NoDup_app. split_and!; [done| |apply NoDup_singleton].
    intros x Hx ->%list_elem_of_singleton. contradiction.
Qed.

Lemma toggle_twice_absent p l : p ∉ l -> toggle p (toggle p l) = l.
Proof.
  intros H. rewrite (toggle_absent p l H).
  rewrite toggle_present by (apply elem_of_app; right; apply list_elem_of_here).
  rewrite filter_app, filter_ne_absent by done.
  rewrite filter_cons_False by (intros Hn; by apply Hn).
  rewrite filter_nil. apply app_nil_r.
Qed.

Lemma toggle_twice_present p l :
  p ∈ l -> toggle p (toggle p l) = filter (fun q => q ≠ p) l ++ [p].
Proof.
  intros H. rewrite (toggle_present p l H).
  apply toggle_absent, filter_ne_not_elem.
Qed.

Lemma toggle_twice_Permutation p l : NoDup l -> toggle p (toggle p l) ≡ₚ l.
Proof.
  intros Hnd. destruct (decide (p ∈ l)) as [Hin|Hni].
  - apply NoDup_Permutation; [by do 2 apply toggle_NoDup|done|].
    intros x. rewrite toggle_twice_present by done.
    rewrite elem_of_app, list_elem_of_filter, list_elem_of_singleton.
    destruct (decide (x = p)) as [->|Hne]; [tauto|].
    split; [intros [[_ Hx]|Hx]; [exact Hx|contradiction]|auto].
  - by rewrite toggle_twice_absent.
Qed.

End JobDiscoveryFacts.

Section JobDiscoveryClaims.

Import JobDiscovery.

(** C1: a search with an empty keyword set is rejected with
    [ValidationError]; in every state of the form whose keyword list is
    empty the search button is disabled and a click sends nothing; hence
    every [POST /api/jobs/search] body sent in any session, from any state,
    carries a non-empty keyword list. *)
Theorem C1_empty_keywords_rejected_and_never_sent :
  (forall fresh body,
      sd_keywords body = [] ->
      Backend.StartSearch fresh body = inl Backend.ValidationError)
  /\ (forall st,
         keywords_of st = [] ->
         search_disabled st = true /\ step st ClickSearch = (st, []))
  /\ (forall st evs body,
         PostJobsSearch body ∈ requests st evs -> sd_keywords body ≠ []).
Proof.
  split_and!.
  - intros fresh body H. unfold Backend.StartSearch. by rewrite H.
  - intros st H. unfold keywords_of in H.
    assert (search_disabled st = true) as Hd.
    { unfold search_disabled. rewrite H. simpl. apply orb_true_r. }
    split; [exact Hd|]. simpl. by rewrite Hd.
  - intros st evs body H.
    destruct (run_request _ _ _ H) as (evs1 & evs2 & _ & Hd & [= ->]).
    simpl. by apply search_disabled_false.
Qed.

Lemma C1_empty_keywords_witness :
  Backend.StartSearch "search-1" (searchData (searchParams cleared_form))
    = inl Backend.ValidationError
  /\ (search_disabled cleared_form = true
      /\ step cleared_form ClickSearch = (cleared_form, []))
  /\ sd_keywords (searchData (searchParams initialState)) ≠ [].
Proof.
  pose proof C1_empty_keywords_rejected_and_never_sent as (H1 & H2 & H3).
  split_and!.
  - apply H1. reflexivity.
  - apply (H2 cleared_form). reflexivity.
  - apply (H2 cleared_form). reflexivity.
  - apply (H3 initialState [ClickSearch]). apply list_elem_of_here.
Defined.

(** C2, at the input that breaks it: the user types 5 into the Max Results
    box and starts the search; the request that leaves carries
    [max_results_per_platform = 5], below the range from 10 to 100 that the
    input declares. *)
Theorem C2_max_results_typed_value_is_sent_unclamped :
  exists body,
    requests initialState [MaxResultsInput "5"; ClickSearch] = [PostJobsSearch body]
    /\ sd_max_results_per_platform body = 5
    /\ ~ (10 <= sd_max_results_per_platform body <= 100).
Proof.
  eexists. split_and!; [reflexivity|reflexivity|].
  change (~ (10 <= 5 <= 100)). lia.
Qed.

(** C3: every search request that is sent was sent by a click that found
    some platform selection; its [platforms] field is [null] exactly when
    that selection is empty, and is the selection itself otherwise. *)
Theorem C3_platforms_null_iff_none_selected st evs body :
  PostJobsSearch body ∈ requests st evs ->
  exists evs1 evs2,
    evs = evs1 ++ ClickSearch :: evs2
    /\ (sd_platforms body = None <-> selection (state_after st evs1) = [])
    /\ (selection (state_after st evs1) ≠ [] ->
        sd_platforms body = Some (selection (state_after st evs1))).
Proof.
  intros H.
  destruct (run_request _ _ _ H) as (evs1 & evs2 & -> & _ & [= ->]).
  exists evs1, evs2. split; [reflexivity|].
  unfold selection. simpl.
  destruct (platforms (searchParams (state_after st evs1))) as [|p ps]; simpl.
  - split; [tauto|]. intros Hne. by destruct Hne.
  - split; [split; discriminate|reflexivity].
Qed.

Lemma C3_platforms_witness :
  exists evs1 evs2,
    [PlatformCheck "remotive"; ClickSearch] = evs1 ++ ClickSearch :: evs2
    /\ (sd_platforms
          (searchData (searchParams (state_after initialState [PlatformCheck "remotive"])))
        = None <-> selection (state_after initialState evs1) = [])
    /\ (selection (state_after initialState evs1) ≠ [] ->
        sd_platforms
          (searchData (searchParams (state_after initialState [PlatformCheck "remotive"])))
        = Some (selection (state_after initialState evs1))).
Proof.
  apply (C3_platforms_null_iff_none_selected initialState
           [PlatformCheck "remotive"; ClickSearch]).
  apply list_elem_of_here.
Defined.

(** C5: the keyword list of the form is always free of duplicates and made
    of trimmed, non-blank strings: this holds in every state reached from
    the initial one and is kept by every event; [handleKeywordAdd] appends
    the trimmed input exactly when it is not empty and not yet listed and
    changes nothing otherwise, and [handleKeywordRemove] leaves a sublist
    holding the entries other than the removed one. *)
Theorem C5_keyword_list_invariant :
  (forall evs, keywords_ok (keywords_of (state_after initialState evs)))
  /\ (forall st ev,
         keywords_ok (keywords_of st) -> keywords_ok (keywords_of (step st ev).1))
  /\ (forall st,
         let k := JS.trim (newKeyword st) in
         (k ≠ EmptyString /\ k ∉ keywords_of st ->
            keywords_of (handleKeywordAdd st) = keywords_of st ++ [k])
         /\ (~ (k ≠ EmptyString /\ k ∉ keywords_of st) ->
             keywords_of (handleKeywordAdd st) = keywords_of st))
  /\ (forall k st,
         (keywords_of (handleKeywordRemove k st) `sublist_of` keywords_of st)
         /\ forall x, x ∈ keywords_of (handleKeywordRemove k st)
                      <-> x ∈ keywords_of st /\ x ≠ k).
Proof.
  split_and!.
  - intros evs. apply run_keywords_ok, initial_keywords_ok.
  - apply step_keywords_ok.
  - intros st k. split.
    + apply handleKeywordAdd_keywords.
    + intros H. by rewrite (proj2 (handleKeywordAdd_keywords st) H).
  - intros k st. unfold keywords_of. simpl. split.
    + apply sublist_filter.
    + intros x. rewrite list_elem_of_filter. tauto.
Qed.

Lemma C5_keyword_list_witness :
  keywords_ok (keywords_of (step initialState ClickAdd).1)
  /\ keywords_of (handleKeywordAdd (setNewKeyword "  rust " initialState))
     = keywords_of (setNewKeyword "  rust " initialState) ++ ["rust"]
  /\ keywords_of (handleKeywordAdd (setNewKeyword " AI " initialState))
     = keywords_of (setNewKeyword " AI " initialState).
Proof.
  pose proof C5_keyword_list_invariant as (H1 & H2 & H3 & _).
  split_and!.
  - apply H2. apply (H1 []).
  - apply (H3 (setNewKeyword "  rust " initialState)). split; [discriminate|].
    apply (bool_decide_unpack _). vm_compute. exact I.
  - apply (H3 (setNewKeyword " AI " initialState)). intros [_ Hn]. apply Hn.
    apply (bool_decide_unpack _). vm_compute. exact I.
Defined.

(** C8, as the code has it: on a selection without duplicates, toggling a
    platform twice gives a permutation of the selection, and the selection
    itself when the platform was not ticked; one toggle appends an absent
    platform and filters out a present one, which the second toggle then
    appends at the end; the selection stays free of duplicates. *)
Theorem C8_toggle_twice_permutes st p :
  NoDup (selection st) ->
  selection (handlePlatformToggle p (handlePlatformToggle p st)) ≡ₚ selection st
  /\ (p ∉ selection st ->
      selection (handlePlatformToggle p st) = selection st ++ [p]
      /\ selection (handlePlatformToggle p (handlePlatformToggle p st)) = selection st)
  /\ (p ∈ selection st ->
      selection (handlePlatformToggle p st) = filter (fun q => q ≠ p) (selection st)
      /\ (p ∉ selection (handlePlatformToggle p st))
      /\ selection (handlePlatformToggle p (handlePlatformToggle p st))
         = filter (fun q => q ≠ p) (selection st) ++ [p])
  /\ NoDup (selection (handlePlatformToggle p st))
  /\ NoDup (selection (handlePlatformToggle p (handlePlatformToggle p st))).
Proof.
  intros Hnd. unfold selection in *. simpl. split_and!.
  - by apply toggle_twice_Permutation.
  - intros H. split; [by apply toggle_absent|by apply toggle_twice_absent].
  - intros H. split_and!.
    + by apply toggle_present.
    + rewrite toggle_present by done. apply filter_ne_not_elem.
    + by apply toggle_twice_present.
  - by apply toggle_NoDup.
  - by do 2 apply toggle_NoDup.
Qed.

Lemma C8_toggle_twice_witness :
  selection (handlePlatformToggle "flexjobs"
               (handlePlatformToggle "flexjobs" two_platforms_form))
    ≡ₚ selection two_platforms_form.
Proof.
  apply (C8_toggle_twice_permutes two_platforms_form "flexjobs").
  apply (bool_decide_unpack _). vm_compute. exact I.
Defined.

(** C8 as stated fails: with flexjobs and remotive ticked in this order,
    unticking and reticking flexjobs leaves remotive first. *)
Lemma C8_toggle_twice_counterexample :
  NoDup (selection two_platforms_form)
  /\ selection two_platforms_form = ["flexjobs"; "remotive"]
  /\ selection (handlePlatformToggle "flexjobs"
                  (handlePlatformToggle "flexjobs" two_platforms_form))
     = ["remotive"; "flexjobs"]
  /\ selection (handlePlatformToggle "flexjobs"
                  (handlePlatformToggle "flexjobs" two_platforms_form))
     ≠ selection two_platforms_form.
Proof.
  split_and!.
  - apply (bool_decide_unpack _). vm_compute. exact I.
  - reflexivity.
  - reflexivity.
  - discriminate.
Qed.

End JobDiscoveryClaims.

(** ** The Profile form *)

Section ProfileClaims.

Import Profile.

Lemma updateArrayField_array field index v (formData : gmap string value) arr :
  formData !! field = Some (VArr arr) ->
  updateArrayField field index v formData
  = Some (<[field := VArr (if String.eqb v "" then splice1 index arr
                           else assign index (VStr v) arr)]> formData).
Proof.
  intros H. unfold updateArrayField, get. rewrite H. reflexivity.
Qed.

(** C9: on an array field and an index within bounds, [updateArrayField]
    succeeds; with the empty string it stores the array without the element
    at the index, the others in their order; with any other string it
    stores the array with that one element replaced; no other field of the
    form data changes. *)
Theorem C9_updateArrayField_frame
    field index v (formData : gmap string value) (arr : list value) :
  formData !! field = Some (VArr arr) ->
  (index < length arr)%nat ->
  exists formData' newArray,
    updateArrayField field index v formData = Some formData'
    /\ formData' !! field = Some (VArr newArray)
    /\ (v = EmptyString ->
        newArray = take index arr ++ drop (S index) arr
        /\ length newArray = (length arr - 1)%nat)
    /\ (v ≠ EmptyString ->
        length newArray = length arr
        /\ newArray !! index = Some (VStr v)
        /\ forall j, j ≠ index -> newArray !! j = arr !! j)
    /\ (forall other, other ≠ field -> formData' !! other = formData !! other).
Proof.
  intros Hf Hi. eexists _, _. split_and!.
  - by apply updateArrayField_array.
  - apply lookup_insert_eq.
  - intros ->. simpl. unfold splice1. split.
    + apply delete_take_drop.
    + rewrite length_delete; [lia|]. by apply lookup_lt_is_Some_2.
  - intros Hv. apply String.eqb_neq in Hv. rewrite Hv.
    unfold assign. apply Nat.ltb_lt in Hi. rewrite Hi. apply Nat.ltb_lt in Hi.
    split_and!.
    + apply length_insert.
    + by apply list_lookup_insert_eq.
    + intros j Hj. by apply list_lookup_insert_ne.
  - intros other Hne. by apply lookup_insert_ne.
Qed.

Lemma C9_updateArrayField_witness :
  exists formData' newArray,
    updateArrayField "skills" 1 ""
      {[ "full_name" := VStr "Ada"; "skills" := VArr [VStr "nlp"; VStr "mt"; VStr "qa"] ]}
    = Some formData'
    /\ formData' !! "skills" = Some (VArr newArray)
    /\ (EmptyString = EmptyString ->
        newArray = take 1 [VStr "nlp"; VStr "mt"; VStr "qa"]
                   ++ drop 2 [VStr "nlp"; VStr "mt"; VStr "qa"]
        /\ length newArray = (3 - 1)%nat)
    /\ (EmptyString ≠ EmptyString ->
        length newArray = 3%nat
        /\ newArray !! 1%nat = Some (VStr "")
        /\ forall j, j ≠ 1%nat -> newArray !! j = [VStr "nlp"; VStr "mt"; VStr "qa"] !! j)
    /\ (forall other, other ≠ "skills" ->
        formData' !! other
        = ({[ "full_name" := VStr "Ada";
              "skills" := VArr [VStr "nlp"; VStr "mt"; VStr "qa"] ]}
             : gmap string value) !! other).
Proof.
  apply (C9_updateArrayField_frame "skills" 1 ""
           {[ "full_name" := VStr "Ada"; "skills" := VArr [VStr "nlp"; VStr "mt"; VStr "qa"] ]}
           [VStr "nlp"; VStr "mt"; VStr "qa"]).
  - reflexivity.
  - simpl. lia.
Defined.

End ProfileClaims.

(** ** The Analytics page *)

Section AnalyticsClaims.

Import Analytics.

Lemma rate_not_positive count total : total <= 0 -> rate count total = Finite 0.
Proof.
  intros H. unfold rate. destruct (0 <? total) eqn:Hp; [|reflexivity].
  apply Z.ltb_lt in Hp. lia.
Qed.

Lemma rate_positive count total :
  0 < total ->
  rate count total = Finite (inject_Z count / inject_Z total * inject_Z 100)%Q.
Proof.
  intros H. unfold rate, div.
  destruct (0 <? total) eqn:Hp; [|apply Z.ltb_ge in Hp; lia].
  destruct (total =? 0) eqn:Hz; [apply Z.eqb_eq in Hz; lia|reflexivity].
Qed.

(** The guard keeps the division away from a zero denominator. *)
Lemma rate_finite count total : exists q, rate count total = Finite q.
Proof.
  destruct (Z.lt_ge_cases 0 total) as [H|H].
  - rewrite rate_positive by done. eauto.
  - rewrite rate_not_positive by done. eauto.
Qed.

Lemma share_bounds count total :
  0 <= count <= total -> 0 < total ->
  (inject_Z 0 <= inject_Z count / inject_Z total * inject_Z 100
   /\ inject_Z count / inject_Z total * inject_Z 100 <= inject_Z 100)%Q.
Proof.
  intros [H0 H1] Ht.
  assert (0 < inject_Z total)%Q as Hq.
  { change 0%Q with (inject_Z 0). by rewrite <- Zlt_Qlt. }
  split.
  - apply Qmult_le_0_compat; [|discriminate].
    apply Qle_shift_div_l; [exact Hq|].
    rewrite Qmult_0_l. change 0%Q with (inject_Z 0). by rewrite <- Zle_Qle.
  - rewrite <- (Qmult_1_l (inject_Z 100)) at 2.
    apply Qmult_le_compat_r; [|discriminate].
    apply Qle_shift_div_r; [exact Hq|].
    rewrite Qmult_1_l. by rewrite <- Zle_Qle.
Qed.

Lemma rate_in_range count total :
  0 <= count <= total -> in_range 0 100 (rate count total).
Proof.
  intros H. destruct (Z.lt_ge_cases 0 total) as [Ht|Ht].
  - rewrite rate_positive by done. by apply share_bounds.
  - rewrite rate_not_positive by done. simpl. split; discriminate.
Qed.

Lemma emailSuccessRate_rate emailLogs :
  emailSuccessRate emailLogs
  = rate (Z.of_nat (sentEmails emailLogs)) (Z.of_nat (length emailLogs)).
Proof.
  unfold emailSuccessRate, rate.
  destruct emailLogs as [|log logs]; [reflexivity|].
  change (0 <? length (log :: logs))%nat with true.
  replace (0 <? Z.of_nat (length (log :: logs))) with true; [reflexivity|].
  symmetry. apply Z.ltb_lt. simpl length. lia.
Qed.

Lemma sentEmails_le emailLogs : (sentEmails emailLogs <= length emailLogs)%nat.
Proof. apply length_filter. Qed.

(** C10: the rates never divide by zero: each of them is a finite number
    on every input, and is 0 when its denominator (the total of
    applications, or the number of email logs) is 0; when a count lies
    between 0 and the total its rate lies between 0 and 100, and the email
    success rate does so on every list of logs. *)
Theorem C10_rates_guarded_and_bounded :
  (forall metrics emailLogs,
      (exists q, interviewRate metrics = Finite q)
      /\ (exists q, rejectionRate metrics = Finite q)
      /\ (exists q, pendingRate metrics = Finite q)
      /\ (exists q, emailSuccessRate emailLogs = Finite q))
  /\ (forall metrics,
         totalApplications metrics = 0 ->
         interviewRate metrics = Finite 0
         /\ rejectionRate metrics = Finite 0
         /\ pendingRate metrics = Finite 0)
  /\ (forall emailLogs,
         length emailLogs = 0%nat -> emailSuccessRate emailLogs = Finite 0)
  /\ (forall metrics,
         (0 <= metric "interviewing" metrics <= totalApplications metrics ->
          in_range 0 100 (interviewRate metrics))
         /\ (0 <= metric "rejected" metrics <= totalApplications metrics ->
             in_range 0 100 (rejectionRate metrics))
         /\ (0 <= metric "pending_applications" metrics <= totalApplications metrics ->
             in_range 0 100 (pendingRate metrics)))
  /\ (forall emailLogs, in_range 0 100 (emailSuccessRate emailLogs)).
Proof.
  split_and!.
  - intros metrics emailLogs. rewrite emailSuccessRate_rate.
    split_and!; apply rate_finite.
  - intros metrics H. unfold interviewRate, rejectionRate, pendingRate.
    rewrite H. split_and!; by apply rate_not_positive.
  - intros emailLogs H. unfold emailSuccessRate. by rewrite H.
  - intros metrics. split_and!; apply rate_in_range.
  - intros emailLogs. rewrite emailSuccessRate_rate. apply rate_in_range.
    pose proof (sentEmails_le emailLogs). lia.
Qed.

Lemma C10_rates_witness :
  (interviewRate ∅ = Finite 0 /\ rejectionRate ∅ = Finite 0 /\ pendingRate ∅ = Finite 0)
  /\ emailSuccessRate [] = Finite 0
  /\ in_range 0 100
       (interviewRate {[ "total_applications" := 8; "interviewing" := 2 ]}).
Proof.
  pose proof C10_rates_guarded_and_bounded as (_ & H2 & H3 & H4 & _).
  split_and!.
  - apply (H2 ∅). reflexivity.
  - apply (H2 ∅). reflexivity.
  - apply (H2 ∅). reflexivity.
  - apply (H3 []). reflexivity.
  - apply (H4 {[ "total_applications" := 8; "interviewing" := 2 ]}).
    vm_compute. split; discriminate.
Defined.

End AnalyticsClaims.

(** ** The backend contracts *)

Section BackendClaims.

Import Backend.

Lemma append_cons c s t : String c s +:+ t = String c (s +:+ t).
Proof. reflexivity. Qed.

Lemma append_nil t : EmptyString +:+ t = t.
Proof. reflexivity. Qed.

Lemma prefix_spec n h : String.prefix n h = true <-> exists b, h = n +:+ b.
Proof.
  revert h. induction n as [|c n IH]; intros h.
  - destruct h; simpl; split; eauto.
  - destruct h as [|d h]; simpl.
    + split; [discriminate|]. intros [b Hb]. discriminate.
    + destruct (ascii_dec c d) as [->|Hne].
      * rewrite IH. split; intros [b Hb]; exists b; rewrite append_cons in *; congruence.
      * split; [discriminate|]. intros [b Hb]. rewrite append_cons in Hb. congruence.
Qed.

Lemma is_substring_spec n h :
  is_substring n h = true <-> exists a b, h = a +:+ n +:+ b.
Proof.
  induction h as [|c h IH].
  - change (is_substring n EmptyString) with (String.prefix n EmptyString || false).
    rewrite orb_false_r, prefix_spec. split.
    + intros [b Hb]. by exists EmptyString, b.
    + intros (a & b & Hab). destruct a; [eauto|discriminate].
  - change (is_substring n (String c h))
      with (String.prefix n (String c h) || is_substring n h).
    rewrite orb_true_iff, prefix_spec, IH. split.
    + intros [[b Hb]|(a & b & Hab)].
      * by exists EmptyString, b.
      * exists (String c a), b. rewrite append_cons. by rewrite Hab.
    + intros (a & b & Hab). destruct a as [|d a]; [left; eauto|].
      right. exists a, b. rewrite append_cons in Hab. congruence.
Qed.

Lemma remove_dups_sublist (l : list string) : remove_dups l `sublist_of` l.
Proof.
  induction l as [|x l IH]; simpl; [constructor|].
  destruct (decide_rel _ x l); by constructor.
Qed.

Lemma matched_keywords_sublist job_text kws :
  matched_keywords job_text kws `sublist_of` kws.
Proof.
  unfold matched_keywords. etrans; [apply remove_dups_sublist|apply sublist_filter].
Qed.

Lemma matched_ratio_bounds job_text kws :
  kws ≠ [] ->
  (0 <= inject_Z (Z.of_nat (length (matched_keywords job_text kws)))
        / inject_Z (Z.of_nat (length kws))
   /\ inject_Z (Z.of_nat (length (matched_keywords job_text kws)))
        / inject_Z (Z.of_nat (length kws)) <= 1)%Q.
Proof.
  intros Hne.
  pose proof (sublist_length _ _ (matched_keywords_sublist job_text kws)) as Hle.
  assert (0 < length kws)%nat as Hpos by (destruct kws; [done|simpl; lia]).
  assert (0 < inject_Z (Z.of_nat (length kws)))%Q as Hq.
  { change 0%Q with (inject_Z 0). rewrite <- Zlt_Qlt. lia. }
  split.
  - apply Qle_shift_div_l; [exact Hq|]. rewrite Qmult_0_l.
    change 0%Q with (inject_Z 0). rewrite <- Zle_Qle. lia.
  - apply Qle_shift_div_r; [exact Hq|]. rewrite Qmult_1_l.
    rewrite <- Zle_Qle. lia.
Qed.

Lemma is_upper_true c :
  is_upper c = true <->
  ((65 <= nat_of_ascii c)%nat /\ (nat_of_ascii c <= 90)%nat)
  \/ ((192 <= nat_of_ascii c)%nat /\ (nat_of_ascii c <= 222)%nat
      /\ nat_of_ascii c ≠ 215%nat).
Proof.
  unfold is_upper.
  rewrite orb_true_iff, !andb_true_iff, negb_true_iff, !Nat.leb_le, Nat.eqb_neq.
  tauto.
Qed.

Lemma to_lower_code c :
  nat_of_ascii (to_lower c)
  = if is_upper c then (nat_of_ascii c + 32)%nat else nat_of_ascii c.
Proof.
  unfold to_lower. destruct (is_upper c) eqn:Hu; [|reflexivity].
  apply is_upper_true in Hu. apply nat_ascii_embedding. lia.
Qed.

Lemma nat_of_ascii_inj c d : nat_of_ascii c = nat_of_ascii d -> c = d.
Proof.
  intros H. rewrite <- (ascii_nat_embedding c), <- (ascii_nat_embedding d).
  by rewrite H.
Qed.

(** Two code units have the same lower case exactly when they are the
    same letter. *)
Lemma to_lower_same_letter c d : to_lower c = to_lower d <-> same_letter c d.
Proof.
  unfold same_letter, case_pair. split.
  - intros H. apply (f_equal nat_of_ascii) in H. rewrite !to_lower_code in H.
    destruct (is_upper c) eqn:Hc; destruct (is_upper d) eqn:Hd.
    + left. apply nat_of_ascii_inj. lia.
    + right. left. apply is_upper_true in Hc. split; [exact Hc|lia].
    + right. right. apply is_upper_true in Hd. split; [exact Hd|lia].
    + left. by apply nat_of_ascii_inj.
  - intros [->|[[Hu Hl]|[Hu Hl]]]; [reflexivity| |];
      apply nat_of_ascii_inj; rewrite !to_lower_code.
    + pose proof (proj2 (is_upper_true c) Hu) as Hc. rewrite Hc.
      destruct (is_upper d) eqn:Hd; [apply is_upper_true in Hd; lia|lia].
    + pose proof (proj2 (is_upper_true d) Hu) as Hd. rewrite Hd.
      destruct (is_upper c) eqn:Hc; [apply is_upper_true in Hc; lia|lia].
Qed.

Lemma lowercase_same s t : lowercase s = lowercase t <-> same_ignoring_case s t.
Proof.
  revert t. induction s as [|c s IH]; intros [|d t]; simpl; try (split; [discriminate|tauto]).
  - tauto.
  - rewrite <- IH, <- to_lower_same_letter. split.
    + intros [= H1 H2]. by split.
    + intros [-> ->]. reflexivity.
Qed.

Lemma lowercase_append a b : lowercase (a +:+ b) = lowercase a +:+ lowercase b.
Proof.
  induction a as [|c a IH]; [reflexivity|].
  rewrite append_cons. simpl. by rewrite IH.
Qed.

Lemma lowercase_append_inv t u v :
  lowercase t = u +:+ v ->
  exists t1 t2, t = t1 +:+ t2 /\ lowercase t1 = u /\ lowercase t2 = v.
Proof.
  revert t. induction u as [|c u IH]; intros t H.
  - exists EmptyString, t. by rewrite append_nil in H.
  - rewrite append_cons in H. destruct t as [|d t]; [discriminate|].
    simpl in H. injection H as Hc Ht.
    destruct (IH t Ht) as (t1 & t2 & -> & H1 & H2).
    exists (String d t1), t2. rewrite append_cons. simpl. by rewrite Hc, H1.
Qed.

(** The scorer's test, lower-casing both sides and searching, finds
    exactly the case-insensitive substrings. *)
Lemma is_substring_ignoring_case k job_text :
  is_substring (lowercase k) (lowercase job_text) = true
  <-> occurs_ignoring_case k job_text.
Proof.
  rewrite is_substring_spec. unfold occurs_ignoring_case. split.
  - intros (a' & b' & H).
    destruct (lowercase_append_inv _ _ _ H) as (a & r & -> & _ & Hr).
    destruct (lowercase_append_inv _ _ _ Hr) as (m & b & -> & Hm & _).
    exists a, m, b. split; [reflexivity|]. by apply lowercase_same.
  - intros (a & m & b & -> & Hm). apply lowercase_same in Hm.
    exists (lowercase a), (lowercase b). by rewrite !lowercase_append, Hm.
Qed.

(** C4: the relevance score lies between 0 and 1; for a profile with
    keywords it is the number of matched keywords over the number of
    profile keywords, capped at 1 (a cap that never bites); the matched
    keywords are the distinct profile keywords that are case-insensitive
    substrings of the job text, in profile order; a profile without
    keywords gives score 0 and no match. *)
Theorem C4_score_bounds_and_meaning job_text (profile_keywords : list string) :
  (0 <= (Score job_text profile_keywords).1 /\ (Score job_text profile_keywords).1 <= 1)%Q
  /\ (profile_keywords ≠ [] ->
      ((Score job_text profile_keywords).1
       == Qmin 1 (inject_Z (Z.of_nat (length (Score job_text profile_keywords).2))
                  / inject_Z (Z.of_nat (length profile_keywords))))%Q
      /\ ((Score job_text profile_keywords).1
          == inject_Z (Z.of_nat (length (Score job_text profile_keywords).2))
             / inject_Z (Z.of_nat (length profile_keywords)))%Q)
  /\ (NoDup (Score job_text profile_keywords).2
      /\ ((Score job_text profile_keywords).2 `sublist_of` profile_keywords)
      /\ forall k,
           k ∈ (Score job_text profile_keywords).2
           <-> k ∈ profile_keywords /\ occurs_ignoring_case k job_text)
  /\ (profile_keywords = [] -> Score job_text profile_keywords = (0%Q, [])).
Proof.
  simpl. split_and!.
  - destruct profile_keywords as [|k ks]; [done|].
    apply Q.min_glb; [discriminate|]. by apply matched_ratio_bounds.
  - destruct profile_keywords as [|k ks]; [done|]. apply Q.le_min_l.
  - intros Hne. destruct profile_keywords as [|k ks]; [done|]. split; [reflexivity|].
    apply Q.min_r. by apply matched_ratio_bounds.
  - apply NoDup_remove_dups.
  - apply matched_keywords_sublist.
  - intros k. unfold matched_keywords.
    rewrite elem_of_remove_dups, list_elem_of_filter, is_substring_ignoring_case. tauto.
  - intros ->. reflexivity.
Qed.

Lemma C4_score_witness :
  Score sample_job_text sample_keywords
  = ((2 # 3)%Q, ["machine learning"; sample_cafe])
  /\ sample_cafe ∈ (Score sample_job_text sample_keywords).2
  /\ ((Score sample_job_text sample_keywords).1
      == inject_Z (Z.of_nat (length (Score sample_job_text sample_keywords).2))
         / inject_Z (Z.of_nat (length sample_keywords)))%Q
  /\ ~ occurs_ignoring_case "rust" sample_job_text
  /\ Score sample_job_text [] = (0%Q, []).
Proof.
  pose proof (C4_score_bounds_and_meaning sample_job_text sample_keywords)
    as (_ & Hratio & (_ & _ & Hin) & _).
  split_and!.
  - vm_compute. reflexivity.
  - apply Hin. split.
    + apply (bool_decide_unpack _). vm_compute. exact I.
    + exists "Senior MACHINE Learning engineer at ",
        ("CAF" +:+ String "201"%char EmptyString), EmptyString.
      split; [reflexivity|].
      unfold sample_cafe, same_letter, case_pair. simpl.
      repeat split; right; left; (split; [|reflexivity]);
        first [left; vm_compute; lia | right; vm_compute; lia].
  - apply Hratio. discriminate.
  - intros Hocc.
    assert ("rust" ∈ (Score sample_job_text sample_keywords).2) as Hr.
    { apply Hin. split; [|exact Hocc].
      apply (bool_decide_unpack _). vm_compute. exact I. }
    revert Hr. apply (bool_decide_eq_false_1 _). vm_compute. reflexivity.
  - apply (C4_score_bounds_and_meaning sample_job_text []). reflexivity.
Defined.

End BackendClaims.

(** ** Query strings *)

Section QueryStrings.

Import URLSearchParams.

Lemma append_assoc (a b c : string) : (a +:+ b) +:+ c = a +:+ b +:+ c.
Proof.
  induction a as [|x a IH]; [reflexivity|].
  rewrite !append_cons. by rewrite IH.
Qed.

Lemma free_of_append sep a b :
  free_of sep (a +:+ b) = free_of sep a && free_of sep b.
Proof.
  induction a as [|x a IH]; [reflexivity|].
  rewrite append_cons. simpl. rewrite IH. apply andb_assoc.
Qed.

(** The serialiser writes neither [&] nor [=] for any code unit. *)
Lemma encode_unit_free c :
  free_of "&" (encode_unit c) = true /\ free_of "=" (encode_unit c) = true.
Proof.
  destruct c as [[] [] [] [] [] [] [] []]; split; vm_compute; reflexivity.
Qed.

Lemma encode_free s : free_of "&" (encode s) = true /\ free_of "=" (encode s) = true.
Proof.
  induction s as [|c s [IH1 IH2]]; [by split|].
  simpl encode. rewrite !free_of_append, IH1, IH2.
  destruct (encode_unit_free c) as [-> ->]. by split.
Qed.

Lemma encode_entry_free e : free_of "&" (encode_entry e) = true.
Proof.
  unfold encode_entry. rewrite !free_of_append.
  rewrite (proj1 (encode_free e.1)), (proj1 (encode_free e.2)). reflexivity.
Qed.

Lemma split_on_free sep s : free_of sep s = true -> split_on sep s = [s].
Proof.
  induction s as [|c s IH]; [reflexivity|].
  simpl. intros [Hc Hs]%andb_true_iff.
  apply negb_true_iff in Hc. rewrite Hc, (IH Hs). reflexivity.
Qed.

Lemma split_on_append sep s t :
  free_of sep s = true ->
  split_on sep (s +:+ String sep t) = s :: split_on sep t.
Proof.
  induction s as [|c s IH].
  - intros _. rewrite append_nil. simpl. by rewrite Ascii.eqb_refl.
  - simpl free_of. intros [Hc Hs]%andb_true_iff.
    apply negb_true_iff in Hc. rewrite append_cons. simpl split_on.
    rewrite Hc, (IH Hs). reflexivity.
Qed.

Lemma split_first_append sep n v :
  free_of sep n = true -> split_first sep (n +:+ String sep v) = (n, v).
Proof.
  induction n as [|c n IH].
  - intros _. rewrite append_nil. simpl. by rewrite Ascii.eqb_refl.
  - simpl free_of. intros [Hc Hn]%andb_true_iff.
    apply negb_true_iff in Hc. rewrite append_cons. simpl split_first.
    rewrite Hc, (IH Hn). reflexivity.
Qed.

Lemma encode_entry_split e : split_first "=" (encode_entry e) = (encode e.1, encode e.2).
Proof.
  unfold encode_entry. apply (split_first_append "="), encode_free.
Qed.

Lemma encode_entry_nonempty e : encode_entry e ≠ EmptyString.
Proof.
  unfold encode_entry. destruct (encode e.1); discriminate.
Qed.

(** Cutting a serialised list at [&] gives back its serialised entries. *)
Lemma split_on_toString e ps :
  split_on "&" (toString (e :: ps)) = map encode_entry (e :: ps).
Proof.
  revert e. induction ps as [|e' ps IH]; intros e.
  - apply split_on_free, encode_entry_free.
  - change (toString (e :: e' :: ps))
      with (encode_entry e +:+ String "&" (toString (e' :: ps))).
    rewrite split_on_append by apply encode_entry_free.
    rewrite IH. reflexivity.
Qed.

(** On the wire the query string shows exactly the entries of the
    parameter list, each name and value encoded. *)
Lemma raw_entries_toString ps :
  raw_entries (toString ps) = map (fun e => (encode e.1, encode e.2)) ps.
Proof.
  unfold raw_entries. destruct ps as [|e ps]; [reflexivity|].
  rewrite split_on_toString.
  assert (forall l, filter (fun p => p ≠ EmptyString) (map encode_entry l)
                    = map encode_entry l) as Hf.
  { induction l as [|x l IHl]; [reflexivity|].
    rewrite map_cons, filter_cons_True by apply encode_entry_nonempty.
    by rewrite IHl. }
  rewrite Hf, map_map. apply map_ext. intros x. apply encode_entry_split.
Qed.

End QueryStrings.

(** ** The Job List page *)

Section JobListClaims.

Import JobList URLSearchParams.







End JobListClaims.

(** ** Where requests go *)

Section ClientClaims.

(** C7: every module defines [API] as the environment-provided backend
    address followed by [/api], and the URL of every request the client
    issues is that [API] followed by a path that starts with a slash and
    does not depend on the environment: no backend host is written into
    any request URL. *)
Theorem C7_requests_target_configured_base :
  (forall BACKEND_URL,
      App.API BACKEND_URL = JS.template_env BACKEND_URL +:+ "/api"
      /\ JobDiscovery.API BACKEND_URL = JS.template_env BACKEND_URL +:+ "/api"
      /\ JobList.API BACKEND_URL = JS.template_env BACKEND_URL +:+ "/api"
      /\ Applications.API BACKEND_URL = JS.template_env BACKEND_URL +:+ "/api"
      /\ CoverLetters.API BACKEND_URL = JS.template_env BACKEND_URL +:+ "/api"
      /\ Analytics.API BACKEND_URL = JS.template_env BACKEND_URL +:+ "/api"
      /\ Profile.API BACKEND_URL = JS.template_env BACKEND_URL +:+ "/api")
  /\ (forall base, JS.template_env (Some base) = base)
  /\ (forall BACKEND_URL c,
         Client.url BACKEND_URL c
         = JS.template_env BACKEND_URL +:+ "/api" +:+ Client.path c)
  /\ (forall c, String.prefix "/" (Client.path c) = true).
Proof.
  split_and!.
  - intros BACKEND_URL. by split_and!.
  - reflexivity.
  - intros BACKEND_URL c.
    destruct c as [[]|[]|[]|[]|[]|[]|[]]; simpl;
      unfold App.API, JobDiscovery.API, JobList.API, Applications.API,
        CoverLetters.API, Analytics.API, Profile.API;
      by rewrite append_assoc.
  - intros c. by destruct c as [[]|[]|[]|[]|[]|[]|[]].
Qed.

End ClientClaims.

(** * Further properties of the components *)

(** ** Job Discovery: sessions *)

Section JobDiscoverySessions.

Import JobDiscovery.

Lemma handleKeywordAdd_isSearching st :
  isSearching (handleKeywordAdd st) = isSearching st.
Proof. unfold handleKeywordAdd. by destruct (_ && _). Qed.

Lemma handleKeywordAdd_others st :
  selection (handleKeywordAdd st) = selection st
  /\ maxResultsPerPlatform (searchParams (handleKeywordAdd st))
     = maxResultsPerPlatform (searchParams st).
Proof. unfold handleKeywordAdd, selection. by destruct (_ && _). Qed.

(** A click that sends a request raises [isSearching]; nothing but the end
    of the search lowers it. *)
Lemma step_in_flight st ev :
  (length (step st ev).2
   + (if isSearching (step st ev).1 then 0 else 1)
   <= (if isSearching st then 0 else 1) + (if is_settled ev then 1 else 0))%nat.
Proof.
  destruct (isSearching st) eqn:Hs; destruct ev; simpl;
    rewrite ?handleKeywordAdd_isSearching, ?Hs; try lia.
  - destruct (String.eqb key "Enter"); simpl;
      rewrite ?handleKeywordAdd_isSearching, ?Hs; lia.
  - unfold search_disabled. rewrite Hs. simpl. rewrite Hs. lia.
  - destruct r; simpl; lia.
  - destruct (String.eqb key "Enter"); simpl;
      rewrite ?handleKeywordAdd_isSearching, ?Hs; lia.
  - unfold search_disabled. rewrite Hs. simpl.
    destruct (length (keywords (searchParams st)) =? 0)%nat; simpl; rewrite ?Hs; lia.
  - destruct r; simpl; lia.
Qed.

(** At most one search is pending at any time: a session sends at most one
    request more than the number of searches that ended in it, and none
    more than that number when it starts while a search is pending; so
    while a search is pending, no sequence of edits and clicks sends
    another request. *)
Theorem requests_bounded_by_settled st evs :
  (length (requests st evs)
   <= (if isSearching st then 0 else 1) + settled_count evs)%nat
  /\ (isSearching st = true -> settled_count evs = 0%nat -> requests st evs = []).
Proof.
  assert (forall st,
             (length (requests st evs)
              <= (if isSearching st then 0 else 1) + settled_count evs)%nat) as Hb.
  { clear st. induction evs as [|ev evs IH]; intros st.
    - unfold requests, settled_count. simpl. lia.
    - rewrite run_cons_requests, length_app.
      pose proof (step_in_flight st ev) as Hs.
      pose proof (IH (step st ev).1) as Hr.
      unfold settled_count in *. simpl List.filter.
      destruct (is_settled ev); simpl length; lia. }
  split; [apply Hb|].
  intros Hs Hc. pose proof (Hb st) as H.
  rewrite Hs, Hc in H. destruct (requests st evs); [done|simpl in H; lia].
Qed.

Lemma requests_bounded_witness :
  requests (handleSearch initialState).1
    [ClickSearch; NewKeywordInput "go"; ClickAdd; ClickSearch] = [].
Proof.
  apply requests_bounded_by_settled; reflexivity.
Defined.

(** [handleKeywordAdd] clears the input box when it adds, so a second call
    right after the first changes nothing. *)
Theorem handleKeywordAdd_idempotent st :
  handleKeywordAdd (handleKeywordAdd st) = handleKeywordAdd st.
Proof.
  destruct (JS.truthy (JS.trim (newKeyword st))
            && negb (JS.includes (keywords (searchParams st)) (JS.trim (newKeyword st))))
    eqn:Hg.
  - assert (handleKeywordAdd st
            = setNewKeyword ""
                (setSearchParams
                   (fun prev =>
                      with_keywords (keywords prev ++ [JS.trim (newKeyword st)]) prev) st))
      as -> by (unfold handleKeywordAdd; by rewrite Hg).
    reflexivity.
  - assert (handleKeywordAdd st = st) as Hst
      by (unfold handleKeywordAdd; by rewrite Hg).
    by rewrite !Hst.
Qed.

(** Removing the keyword that [handleKeywordAdd] has just appended gives
    back the keyword list as it was. *)
Theorem keyword_add_then_remove st :
  JS.trim (newKeyword st) ≠ EmptyString ->
  JS.trim (newKeyword st) ∉ keywords_of st ->
  keywords_of (handleKeywordRemove (JS.trim (newKeyword st)) (handleKeywordAdd st))
  = keywords_of st.
Proof.
  intros Hne Hni.
  change (keywords_of (handleKeywordRemove (JS.trim (newKeyword st)) (handleKeywordAdd st)))
    with (filter (fun k => k ≠ JS.trim (newKeyword st)) (keywords_of (handleKeywordAdd st))).
  rewrite (proj1 (handleKeywordAdd_keywords st)) by done.
  rewrite filter_app, filter_ne_absent by done.
  rewrite filter_cons_False by (intros Hn; by apply Hn).
  rewrite filter_nil. apply app_nil_r.
Qed.

Lemma keyword_add_then_remove_witness :
  keywords_of (handleKeywordRemove (JS.trim " rust ")
                 (handleKeywordAdd (setNewKeyword " rust " initialState)))
  = keywords_of (setNewKeyword " rust " initialState).
Proof.
  apply (keyword_add_then_remove (setNewKeyword " rust " initialState)).
  - discriminate.
  - apply (bool_decide_unpack _). vm_compute. exact I.
Defined.

(** [handleKeywordRemove] on a keyword that is not listed leaves the whole
    form as it is. *)
Theorem keyword_remove_absent k st :
  k ∉ keywords_of st -> handleKeywordRemove k st = st.
Proof.
  intros H. unfold handleKeywordRemove, setSearchParams. simpl.
  unfold keywords_of in H. rewrite filter_ne_absent by done.
  by destruct st as [[] ? ? ?].
Qed.

Lemma keyword_remove_absent_witness :
  handleKeywordRemove "rust" initialState = initialState.
Proof.
  apply keyword_remove_absent.
  apply (bool_decide_unpack _). vm_compute. exact I.
Defined.

(** After [handleKeywordRemove k] the keyword [k] is gone, whatever the
    list held, and removing two keywords gives the same form in either
    order. *)
Theorem keyword_remove_gone_and_commutes k1 k2 st :
  (k1 ∉ keywords_of (handleKeywordRemove k1 st))
  /\ handleKeywordRemove k1 (handleKeywordRemove k1 st) = handleKeywordRemove k1 st
  /\ handleKeywordRemove k1 (handleKeywordRemove k2 st)
     = handleKeywordRemove k2 (handleKeywordRemove k1 st).
Proof.
  split_and!.
  - apply filter_ne_not_elem.
  - unfold handleKeywordRemove, setSearchParams, with_keywords. simpl.
    do 2 f_equal. rewrite list_filter_filter.
    apply list_filter_iff. tauto.
  - unfold handleKeywordRemove, setSearchParams, with_keywords. simpl.
    do 2 f_equal. rewrite !list_filter_filter.
    apply list_filter_iff. tauto.
Qed.

Lemma step_max_nonzero st ev :
  maxResultsPerPlatform (searchParams st) ≠ 0 ->
  maxResultsPerPlatform (searchParams (step st ev).1) ≠ 0.
Proof.
  intros H. destruct ev; simpl; try exact H.
  - destruct (String.eqb key "Enter"); [|exact H].
    by rewrite (proj2 (handleKeywordAdd_others st)).
  - by rewrite (proj2 (handleKeywordAdd_others st)).
  - unfold JS.or_number. destruct (JS.parseInt value) as [z|]; [|done].
    destruct (z =? 0) eqn:Hz; [done|]. by apply Z.eqb_neq.
  - by destruct (search_disabled st).
  - by destruct r.
Qed.

Lemma run_max_nonzero st evs :
  maxResultsPerPlatform (searchParams st) ≠ 0 ->
  maxResultsPerPlatform (searchParams (state_after st evs)) ≠ 0.
Proof.
  revert st. induction evs as [|ev evs IH]; intros st H; [exact H|].
  rewrite run_cons_state. by apply IH, step_max_nonzero.
Qed.

(** The Max Results box never stores 0: an entry that does not start with
    a number, or that reads as 0, stores 50, and from a form whose value is
    not 0 no request with [max_results_per_platform = 0] is ever sent. *)
Theorem max_results_never_zero :
  (forall value st,
      JS.parseInt value = None \/ JS.parseInt value = Some 0 ->
      maxResultsPerPlatform (searchParams (handleMaxResultsChange value st)) = 50)
  /\ (forall st evs body,
         maxResultsPerPlatform (searchParams st) ≠ 0 ->
         PostJobsSearch body ∈ requests st evs ->
         sd_max_results_per_platform body ≠ 0).
Proof.
  split.
  - intros value st [H|H]; simpl; by rewrite H.
  - intros st evs body H0 Hin.
    destruct (run_request _ _ _ Hin) as (evs1 & evs2 & _ & _ & Hb).
    injection Hb as ->.
    simpl. by apply run_max_nonzero.
Qed.

Lemma max_results_never_zero_witness :
  maxResultsPerPlatform (searchParams (handleMaxResultsChange "ten" initialState)) = 50
  /\ sd_max_results_per_platform
       (searchData (searchParams (state_after initialState [MaxResultsInput "0"]))) ≠ 0.
Proof.
  pose proof max_results_never_zero as [H1 H2]. split.
  - apply H1. left. reflexivity.
  - apply (H2 initialState [MaxResultsInput "0"; ClickSearch]); [discriminate|].
    apply list_elem_of_here.
Defined.

Lemma toggle_selection_ok p ps :
  p ∈ platform_ids -> selection_ok ps -> selection_ok (toggle p ps).
Proof.
  intros Hp [Hnd Hsub]. split; [by apply toggle_NoDup|].
  intros q. destruct (decide (p ∈ ps)) as [Hin|Hni].
  - rewrite toggle_present by done. intros [_ Hq]%list_elem_of_filter. auto.
  - rewrite toggle_absent by done.
    intros [Hq|Hq]%elem_of_app; [auto|].
    apply list_elem_of_singleton in Hq as ->. exact Hp.
Qed.

Lemma step_selection_ok st ev :
  rendered ev -> selection_ok (selection st) -> selection_ok (selection (step st ev).1).
Proof.
  intros Hev Hok. destruct ev; simpl; try exact Hok.
  - destruct (String.eqb key "Enter"); [|exact Hok].
    by rewrite (proj1 (handleKeywordAdd_others st)).
  - by rewrite (proj1 (handleKeywordAdd_others st)).
  - by apply toggle_selection_ok.
  - by destruct (search_disabled st).
  - by destruct r.
Qed.

Lemma run_selection_ok st evs :
  Forall rendered evs -> selection_ok (selection st) ->
  selection_ok (selection (state_after st evs)).
Proof.
  revert st. induction evs as [|ev evs IH]; intros st Hevs Hok; [exact Hok|].
  apply Forall_cons in Hevs as [Hev Hevs].
  rewrite run_cons_state. by apply IH, step_selection_ok.
Qed.

Lemma selection_ok_length ps : selection_ok ps -> (length ps <= 7)%nat.
Proof.
  intros [Hnd Hsub].
  change 7%nat with (length platform_ids).
  apply submseteq_length, NoDup_submseteq; auto.
Qed.

(** In a session of the rendered form, the [platforms] field of every
    request is [null] or a non-empty list of known platforms without
    repetition, and the alert names between 1 and 7 platforms. *)
Theorem request_platforms_known evs body :
  Forall rendered evs ->
  PostJobsSearch body ∈ requests initialState evs ->
  match sd_platforms body with
  | None => True
  | Some ps => ps ≠ [] /\ NoDup ps /\ forall p, p ∈ ps -> p ∈ platform_ids
  end
  /\ 1 <= alert_platform_count body <= 7.
Proof.
  intros Hevs Hin.
  destruct (run_request _ _ _ Hin) as (evs1 & evs2 & -> & _ & Hb).
  injection Hb as ->.
  apply Forall_app in Hevs as [Hevs1 _].
  assert (selection_ok (selection (state_after initialState evs1))) as Hok.
  { apply run_selection_ok; [done|]. split; [constructor|]. intros p Hp. inversion Hp. }
  pose proof (selection_ok_length _ Hok) as Hlen.
  destruct Hok as [Hnd Hsub]. unfold selection in *.
  unfold alert_platform_count. simpl.
  destruct (platforms (searchParams (state_after initialState evs1))) as [|p ps] eqn:Hps.
  - simpl. split; [done|lia].
  - simpl. split; [done|].
    simpl in Hlen. destruct (Z.of_nat (S (length ps)) =? 0) eqn:Hz; lia.
Qed.

Lemma request_platforms_known_witness :
  match sd_platforms (searchData (searchParams two_platforms_form)) with
  | None => True
  | Some ps => ps ≠ [] /\ NoDup ps /\ forall p, p ∈ ps -> p ∈ platform_ids
  end
  /\ 1 <= alert_platform_count (searchData (searchParams two_platforms_form)) <= 7.
Proof.
  apply (request_platforms_known
           [PlatformCheck "flexjobs"; PlatformCheck "remotive"; ClickSearch]).
  - repeat constructor; apply (bool_decide_unpack _); vm_compute; exact I.
  - apply list_elem_of_here.
Defined.

End JobDiscoverySessions.

(** ** Job Discovery: what the requests carry *)

Section JobDiscoveryRequests.

Import JobDiscovery.

Lemma trimEnd_last s c :
  JS.last_unit (JS.trimEnd s) = Some c -> JS.is_white_space c = false.
Proof.
  induction s as [|a s IH]; [discriminate|].
  simpl JS.trimEnd. destruct (JS.trimEnd s) as [|d t].
  - destruct (JS.is_white_space a) eqn:Ha; [discriminate|].
    simpl. by intros [= <-].
  - exact IH.
Qed.

Lemma trim_first s c :
  JS.first_unit (JS.trim s) = Some c -> JS.is_white_space c = false.
Proof.
  unfold JS.trim. destruct (JS.trimStart s) as [|a u] eqn:Hu; [discriminate|].
  pose proof (trimStart_head _ _ _ Hu) as Ha.
  destruct (trimEnd_keeps_head a u Ha) as [t ->]. simpl. by intros [= <-].
Qed.

Lemma trimmed_no_outer_space k : trimmed k -> JS.no_outer_space k.
Proof.
  intros [Hne Hk]. split_and!; [done| |]; intros c; rewrite <- Hk.
  - apply trim_first.
  - apply trimEnd_last.
Qed.

(** In every session that starts from the initial form, the keywords of
    each request are pairwise different, and none of them is empty or
    starts or ends with white space. *)
Theorem request_keywords_clean evs body :
  PostJobsSearch body ∈ requests initialState evs ->
  NoDup (sd_keywords body)
  /\ forall k, k ∈ sd_keywords body -> JS.no_outer_space k.
Proof.
  intros Hin.
  destruct (run_request _ _ _ Hin) as (evs1 & evs2 & _ & _ & Hb).
  injection Hb as ->. simpl.
  destruct (run_keywords_ok initialState evs1 initial_keywords_ok) as [Hnd Hall].
  split; [exact Hnd|].
  intros k Hk. apply trimmed_no_outer_space.
  rewrite Forall_forall in Hall. by apply Hall.
Qed.

Lemma request_keywords_clean_witness :
  NoDup (sd_keywords
           (searchData (searchParams
              (state_after initialState [NewKeywordInput "  rust "; ClickAdd]))))
  /\ forall k,
       k ∈ sd_keywords
             (searchData (searchParams
                (state_after initialState [NewKeywordInput "  rust "; ClickAdd]))) ->
       JS.no_outer_space k.
Proof.
  apply (request_keywords_clean [NewKeywordInput "  rust "; ClickAdd; ClickSearch]).
  apply list_elem_of_here.
Defined.

End JobDiscoveryRequests.

(** ** Profile: editing the list fields *)

Section ProfileEditing.

Import Profile.

Lemma addToArrayField_array field (formData : gmap string value) arr :
  formData !! field = Some (VArr arr) ->
  addToArrayField field formData = Some (<[field := VArr (arr ++ [VStr ""])]> formData).
Proof.
  intros H. unfold addToArrayField, get. rewrite H. reflexivity.
Qed.

Lemma delete_past_end (arr : list value) index :
  (length arr <= index)%nat -> delete index arr = arr.
Proof.
  revert index. induction arr as [|x arr IH]; intros index H; [by destruct index|].
  destruct index as [|index]; simpl in *; [lia|].
  f_equal. apply IH. lia.
Qed.

(** Add Item followed by clearing the new, last slot gives back the form
    data: the empty entry that [addToArrayField] appends is the one that
    [updateArrayField] with the empty string removes. *)
Theorem add_then_clear_restores field (formData : gmap string value) arr :
  formData !! field = Some (VArr arr) ->
  addToArrayField field formData ≫= updateArrayField field (length arr) ""
  = Some formData.
Proof.
  intros H. rewrite (addToArrayField_array _ _ _ H). simpl.
  rewrite (updateArrayField_array _ _ _ _ (arr ++ [VStr ""])) by apply lookup_insert_eq.
  simpl. unfold splice1. rewrite delete_middle, app_nil_r, insert_insert_eq.
  f_equal. by apply insert_id.
Qed.

Lemma add_then_clear_witness :
  addToArrayField "skills" {[ "skills" := VArr [VStr "nlp"; VStr "mt"] ]}
    ≫= updateArrayField "skills" 2 ""
  = Some {[ "skills" := VArr [VStr "nlp"; VStr "mt"] ]}.
Proof.
  apply (add_then_clear_restores "skills" _ [VStr "nlp"; VStr "mt"]).
  reflexivity.
Defined.

(** Add Item followed by typing a non-empty text into the new slot appends
    that text to the list and touches no other field. *)
Theorem add_then_type_appends field v (formData : gmap string value) arr :
  formData !! field = Some (VArr arr) ->
  v ≠ EmptyString ->
  addToArrayField field formData ≫= updateArrayField field (length arr) v
  = Some (<[field := VArr (arr ++ [VStr v])]> formData).
Proof.
  intros H Hv. rewrite (addToArrayField_array _ _ _ H). simpl.
  rewrite (updateArrayField_array _ _ _ _ (arr ++ [VStr ""])) by apply lookup_insert_eq.
  apply String.eqb_neq in Hv. rewrite Hv. unfold assign.
  rewrite length_app. simpl length.
  replace (length arr <? length arr + 1)%nat with true
    by (symmetry; apply Nat.ltb_lt; lia).
  rewrite insert_insert_eq. do 3 f_equal.
  rewrite <- (Nat.add_0_r (length arr)) at 1. by rewrite insert_app_r.
Qed.

Lemma add_then_type_witness :
  addToArrayField "skills" {[ "skills" := VArr [VStr "nlp"] ]}
    ≫= updateArrayField "skills" 1 "mt"
  = Some (<["skills" := VArr ([VStr "nlp"] ++ [VStr "mt"])]>
            {[ "skills" := VArr [VStr "nlp"] ]}).
Proof.
  apply (add_then_type_appends "skills" "mt" _ [VStr "nlp"]).
  - reflexivity.
  - discriminate.
Defined.

(** On a field the form data does not hold, [updateArrayField] fails (the
    spread of what it reads throws) for every index and text;
    [addToArrayField] creates the field with one empty entry, unless the
    name is one every object inherits from [Object.prototype]: the
    inherited member is truthy and not iterable, and [addToArrayField]
    fails as well. *)
Theorem missing_field_update_fails_add_creates
    field index v (formData : gmap string value) :
  formData !! field = None ->
  updateArrayField field index v formData = None
  /\ (field ∉ JS.prototype_names ->
      addToArrayField field formData = Some (<[field := VArr [VStr ""]]> formData))
  /\ (field ∈ JS.prototype_names -> addToArrayField field formData = None).
Proof.
  intros H. unfold updateArrayField, addToArrayField, get. rewrite H.
  case_bool_decide; split_and!; try done.
Qed.

Lemma missing_field_witness :
  updateArrayField "languages" 0 "fr" {[ "skills" := VArr [VStr "nlp"] ]} = None
  /\ addToArrayField "languages" {[ "skills" := VArr [VStr "nlp"] ]}
     = Some (<["languages" := VArr [VStr ""]]> {[ "skills" := VArr [VStr "nlp"] ]})
  /\ addToArrayField "constructor" {[ "skills" := VArr [VStr "nlp"] ]} = None.
Proof.
  pose proof (missing_field_update_fails_add_creates "languages" 0 "fr"
                {[ "skills" := VArr [VStr "nlp"] ]} eq_refl) as (H1 & H2 & _).
  pose proof (missing_field_update_fails_add_creates "constructor" 0 "fr"
                {[ "skills" := VArr [VStr "nlp"] ]} eq_refl) as (_ & _ & H3).
  split_and!.
  - exact H1.
  - apply H2. apply (bool_decide_eq_false_1 _). vm_compute. reflexivity.
  - apply H3. apply (bool_decide_unpack _). vm_compute. exact I.
Defined.

(** Past the end of the list, clearing is a no-op on the form data, and a
    non-empty text lands at the index it was written to: the list grows to
    that index, keeps its entries, and the slots in between are
    [undefined]. *)
Theorem update_past_end field index v (formData : gmap string value) arr :
  formData !! field = Some (VArr arr) ->
  (length arr <= index)%nat ->
  (v = EmptyString -> updateArrayField field index v formData = Some formData)
  /\ (v ≠ EmptyString ->
      exists newArray,
        updateArrayField field index v formData
        = Some (<[field := VArr newArray]> formData)
        /\ length newArray = S index
        /\ newArray !! index = Some (VStr v)
        /\ (forall j, (j < length arr)%nat -> newArray !! j = arr !! j)
        /\ (forall j, (length arr <= j < index)%nat -> newArray !! j = Some VUndefined)).
Proof.
  intros H Hi. rewrite (updateArrayField_array _ _ _ _ _ H). split.
  - intros ->. simpl. unfold splice1. rewrite delete_past_end by done.
    f_equal. by apply insert_id.
  - intros Hv. apply String.eqb_neq in Hv. rewrite Hv. unfold assign.
    replace (index <? length arr)%nat with false
      by (symmetry; apply Nat.ltb_ge; lia).
    eexists. split; [reflexivity|]. split_and!.
    + rewrite !length_app, length_replicate. simpl. lia.
    + rewrite lookup_app_r by lia.
      rewrite lookup_app_r by (rewrite length_replicate; lia).
      rewrite length_replicate.
      by replace (index - length arr - (index - length arr))%nat with 0%nat by lia.
    + intros j Hj. by rewrite lookup_app_l.
    + intros j Hj. rewrite lookup_app_r by lia.
      rewrite lookup_app_l by (rewrite length_replicate; lia).
      apply lookup_replicate_2. lia.
Qed.

Lemma update_past_end_witness :
  updateArrayField "skills" 3 "" {[ "skills" := VArr [VStr "nlp"] ]}
  = Some {[ "skills" := VArr [VStr "nlp"] ]}.
Proof.
  apply (update_past_end "skills" 3 "" _ [VStr "nlp"]).
  - reflexivity.
  - simpl. lia.
  - reflexivity.
Defined.

(** Typing twice into the same slot keeps only the second text: two
    non-empty updates at an index within bounds equal the second alone. *)
Theorem update_twice_is_last field index v1 v2 (formData : gmap string value) arr :
  formData !! field = Some (VArr arr) ->
  (index < length arr)%nat ->
  v1 ≠ EmptyString -> v2 ≠ EmptyString ->
  updateArrayField field index v1 formData ≫= updateArrayField field index v2
  = updateArrayField field index v2 formData.
Proof.
  intros H Hi Hv1 Hv2.
  rewrite !(updateArrayField_array _ _ _ _ _ H). simpl.
  rewrite (updateArrayField_array _ _ _ _ _ (lookup_insert_eq _ _ _)).
  apply String.eqb_neq in Hv1, Hv2. rewrite Hv1, Hv2. unfold assign.
  apply Nat.ltb_lt in Hi. rewrite Hi, length_insert, Hi.
  by rewrite list_insert_insert_eq, insert_insert_eq.
Qed.

Lemma update_twice_witness :
  updateArrayField "skills" 0 "n" {[ "skills" := VArr [VStr "x"; VStr "mt"] ]}
    ≫= updateArrayField "skills" 0 "nl"
  = updateArrayField "skills" 0 "nl" {[ "skills" := VArr [VStr "x"; VStr "mt"] ]}.
Proof.
  apply (update_twice_is_last "skills" 0 "n" "nl" _ [VStr "x"; VStr "mt"]).
  - reflexivity.
  - simpl. lia.
  - discriminate.
  - discriminate.
Defined.

End ProfileEditing.

(** ** Analytics: the source tally and the rounded shares *)

Section AnalyticsTally.

Import Analytics.

Lemma bump_other k s (counts : gmap string tally) :
  k ≠ s -> bump k counts !! s = counts !! s.
Proof.
  intros Hne. unfold bump.
  destruct (counts !! k) as [[n|]|]; rewrite ?lookup_insert_ne by done; try done.
  case_bool_decide; [|by rewrite lookup_insert_ne].
  destruct (String.eqb k "__proto__"); [done|by rewrite lookup_insert_ne].
Qed.

Lemma bump_same s n (counts : gmap string tally) :
  s ∉ inherited_names -> 0 <= n ->
  counts !! s = slot_of n -> bump s counts !! s = slot_of (n + 1).
Proof.
  intros Hs Hn Hl. unfold bump, slot_of in *.
  replace (n + 1 =? 0) with false by (symmetry; apply Z.eqb_neq; lia).
  destruct (n =? 0) eqn:Hz; rewrite Hl.
  - apply Z.eqb_eq in Hz as ->. rewrite bool_decide_eq_false_2 by done.
    apply lookup_insert_eq.
  - simpl. rewrite Hz. apply lookup_insert_eq.
Qed.

Lemma tally_from s n (recentJobs : list Job) (counts : gmap string tally) :
  s ∉ inherited_names -> 0 <= n ->
  counts !! s = slot_of n ->
  foldl (fun counts job => bump (source job) counts) counts recentJobs !! s
  = slot_of (n + Z.of_nat (jobs_from s recentJobs)).
Proof.
  intros Hs. revert n counts.
  induction recentJobs as [|job jobs IH]; intros n counts Hn Hl.
  - unfold jobs_from. simpl. by rewrite Z.add_0_r.
  - simpl foldl. unfold jobs_from.
    destruct (decide (source job = s)) as [He|Hne].
    + rewrite filter_cons_True by done. simpl length.
      rewrite (IH (n + 1) (bump (source job) counts)); [|lia|].
      * f_equal. unfold jobs_from. lia.
      * rewrite He. by apply bump_same.
    + rewrite filter_cons_False by done.
      apply IH; [done|]. by rewrite bump_other.
Qed.

(** Under every source name that is not an inherited property name,
    [jobSourceCounts] holds exactly the number of recent jobs from that
    source, and no slot at all when there is none. *)
Theorem jobSourceCounts_counts s (recentJobs : list Job) :
  s ∉ inherited_names ->
  jobSourceCounts recentJobs !! s = slot_of (Z.of_nat (jobs_from s recentJobs)).
Proof.
  intros Hs. unfold jobSourceCounts.
  rewrite (tally_from s 0) by done. reflexivity.
Qed.

Lemma jobSourceCounts_counts_witness :
  jobSourceCounts [ {| source := "remotive" |}; {| source := "upwork" |};
                    {| source := "remotive" |} ] !! "remotive"
  = slot_of (Z.of_nat (jobs_from "remotive"
       [ {| source := "remotive" |}; {| source := "upwork" |};
         {| source := "remotive" |} ])).
Proof.
  apply jobSourceCounts_counts.
  apply (bool_decide_unpack _). vm_compute. exact I.
Defined.

Lemma bump_inherited s (counts : gmap string tally) k :
  s ∈ inherited_names ->
  (forall n, counts !! s ≠ Some (Count n)) ->
  forall n, bump k counts !! s ≠ Some (Count n).
Proof.
  intros Hs Hc n. destruct (decide (k = s)) as [->|Hne].
  - unfold bump. destruct (counts !! s) as [[m|]|] eqn:Hl.
    + by destruct (Hc m).
    + by rewrite lookup_insert_eq.
    + rewrite bool_decide_eq_true_2 by done.
      destruct (String.eqb s "__proto__"); [by rewrite Hl|by rewrite lookup_insert_eq].
  - rewrite bump_other by done. apply Hc.
Qed.

Lemma tally_inherited s (recentJobs : list Job) (counts : gmap string tally) :
  s ∈ inherited_names ->
  (forall n, counts !! s ≠ Some (Count n)) ->
  forall n,
    foldl (fun counts job => bump (source job) counts) counts recentJobs !! s
    ≠ Some (Count n).
Proof.
  intros Hs. revert counts.
  induction recentJobs as [|job jobs IH]; intros counts Hc; [exact Hc|].
  simpl. apply IH. by apply bump_inherited.
Qed.

Lemma jobs_from_le s (recentJobs : list Job) :
  (jobs_from s recentJobs <= length recentJobs)%nat.
Proof. apply length_filter. Qed.

Lemma round_percent q :
  (inject_Z 0 <= q /\ q <= inject_Z 100)%Q ->
  0 <= Qfloor (q + (1 # 2)) <= 100.
Proof.
  intros [H0 H1]. split.
  - change 0 with (Qfloor (inject_Z 0)). apply Qfloor_resp_le.
    apply Qle_trans with q; [exact H0|].
    rewrite <- (Qplus_0_r q) at 1. apply Qplus_le_r. discriminate.
  - change 100 with (Qfloor (inject_Z 100 + (1 # 2))). apply Qfloor_resp_le.
    by apply Qplus_le_l.
Qed.

(** Every count in [jobSourceCounts] is at least 1 and at most the number
    of recent jobs, so the share shown next to it never divides by zero
    and is a whole number between 0 and 100. *)
Theorem source_percent_defined s n (recentJobs : list Job) :
  jobSourceCounts recentJobs !! s = Some (Count n) ->
  1 <= n <= Z.of_nat (length recentJobs)
  /\ exists share, source_percent n recentJobs = Some share /\ 0 <= share <= 100.
Proof.
  intros Hl.
  assert (s ∉ inherited_names) as Hs.
  { intros Hin. revert Hl. unfold jobSourceCounts.
    apply tally_inherited; [done|]. intros m. by rewrite lookup_empty. }
  unfold jobSourceCounts in Hl. rewrite (tally_from s 0) in Hl by done.
  rewrite Z.add_0_l in Hl. unfold slot_of in Hl.
  pose proof (jobs_from_le s recentJobs) as Hle.
  destruct (Z.of_nat (jobs_from s recentJobs) =? 0) eqn:Hz; [done|].
  apply Z.eqb_neq in Hz. injection Hl as <-.
  split; [lia|].
  unfold source_percent, div.
  destruct (Z.of_nat (length recentJobs) =? 0) eqn:Hlen;
    [apply Z.eqb_eq in Hlen; lia|].
  cbn [mul round]. eexists. split; [reflexivity|].
  apply round_percent, share_bounds; lia.
Qed.

Lemma source_percent_defined_witness :
  1 <= 2 <= Z.of_nat (length [ {| source := "remotive" |}; {| source := "upwork" |};
                               {| source := "remotive" |} ])
  /\ exists share,
       source_percent 2 [ {| source := "remotive" |}; {| source := "upwork" |};
                          {| source := "remotive" |} ] = Some share
       /\ 0 <= share <= 100.
Proof.
  apply (source_percent_defined "remotive"). reflexivity.
Defined.

(** The percentages the tiles print are whole numbers between 0 and 100:
    the rounded rate of any count between 0 and its total, and the
    Application Rate whenever the applications do not exceed the jobs
    discovered; the Application Rate is a number on every input, and it is
    0 when [total_jobs_discovered] is missing or not positive. *)
Theorem rounded_rates_bounded :
  (forall count total,
      0 <= count <= total ->
      exists shown, round (rate count total) = Some shown /\ 0 <= shown <= 100)
  /\ (forall metrics, exists shown, applicationRate metrics = Some shown)
  /\ (forall metrics discovered,
         metrics !! "total_jobs_discovered" = Some discovered ->
         0 <= totalApplications metrics <= discovered ->
         exists shown, applicationRate metrics = Some shown /\ 0 <= shown <= 100)
  /\ (forall metrics,
         metrics !! "total_jobs_discovered" = None ->
         applicationRate metrics = Some 0)
  /\ (forall metrics discovered,
         metrics !! "total_jobs_discovered" = Some discovered ->
         discovered <= 0 ->
         applicationRate metrics = Some 0).
Proof.
  split_and!.
  - intros count total H.
    pose proof (rate_in_range count total H) as Hr.
    destruct (rate count total) as [q|]; [|done].
    cbn [round]. eexists. split; [reflexivity|]. by apply round_percent.
  - intros metrics. unfold applicationRate, div.
    destruct (metrics !! "total_jobs_discovered") as [d|]; [|eauto].
    destruct (0 <? d) eqn:Hd; [|eauto].
    apply Z.ltb_lt in Hd.
    destruct (d =? 0) eqn:Hz; [apply Z.eqb_eq in Hz; lia|]. cbn [mul round]. eauto.
  - intros metrics d Hl H. unfold applicationRate, div. rewrite Hl.
    destruct (0 <? d) eqn:Hd; [|eexists; split; [reflexivity|lia]].
    apply Z.ltb_lt in Hd.
    destruct (d =? 0) eqn:Hz; [apply Z.eqb_eq in Hz; lia|]. cbn [mul round].
    eexists. split; [reflexivity|]. by apply round_percent, share_bounds.
  - intros metrics Hl. unfold applicationRate. by rewrite Hl.
  - intros metrics d Hl Hd. unfold applicationRate. rewrite Hl.
    destruct (0 <? d) eqn:Hp; [apply Z.ltb_lt in Hp; lia|reflexivity].
Qed.

Lemma rounded_rates_witness :
  (exists shown, round (rate 1 3) = Some shown /\ 0 <= shown <= 100)
  /\ (exists shown,
        applicationRate {[ "total_jobs_discovered" := 8; "total_applications" := 3 ]}
        = Some shown /\ 0 <= shown <= 100)
  /\ applicationRate {[ "total_applications" := 3 ]} = Some 0
  /\ applicationRate {[ "total_jobs_discovered" := 0; "total_applications" := 3 ]}
     = Some 0.
Proof.
  pose proof rounded_rates_bounded as (H1 & _ & H3 & H4 & H5). split_and!.
  - apply (H1 1 3). lia.
  - apply (H3 {[ "total_jobs_discovered" := 8; "total_applications" := 3 ]} 8).
    + reflexivity.
    + vm_compute. split; discriminate.
  - apply H4. reflexivity.
  - apply (H5 _ 0); [reflexivity|lia].
Defined.

End AnalyticsTally.

(** ** Job List: the keyword chips *)

Section JobListCards.

Import JobList.

(** A job card accounts for every matched keyword: the chips are the first
    three, the [+N more] label appears exactly when there are more than
    three, and chips plus [N] make the whole list. *)
Theorem keyword_chips_account_for_all (keywords_matched : list string) :
  shown_keywords keywords_matched ++ drop 3 keywords_matched = keywords_matched
  /\ Z.of_nat (length (shown_keywords keywords_matched))
     + default 0 (more_keywords keywords_matched)
     = Z.of_nat (length keywords_matched)
  /\ (more_keywords keywords_matched = None <-> (length keywords_matched <= 3)%nat)
  /\ (forall n, more_keywords keywords_matched = Some n ->
                n = Z.of_nat (length (drop 3 keywords_matched)) /\ 0 < n).
Proof.
  unfold shown_keywords, more_keywords. split_and!.
  - apply take_drop.
  - rewrite length_take.
    destruct (3 <? length keywords_matched)%nat eqn:H; cbn [from_option id].
    + apply Nat.ltb_lt in H. lia.
    + apply Nat.ltb_ge in H. lia.
  - destruct (3 <? length keywords_matched)%nat eqn:H.
    + apply Nat.ltb_lt in H. split; [discriminate|lia].
    + apply Nat.ltb_ge in H. split; [done|reflexivity].
  - intros n. rewrite length_drop.
    destruct (3 <? length keywords_matched)%nat eqn:H; [|discriminate].
    apply Nat.ltb_lt in H. intros [= <-]. lia.
Qed.

Lemma keyword_chips_witness :
  2 = Z.of_nat (length (drop 3 ["nlp"; "mt"; "ai"; "qa"; "llm"])) /\ 0 < 2.
Proof.
  apply (proj2 (proj2 (proj2
           (keyword_chips_account_for_all ["nlp"; "mt"; "ai"; "qa"; "llm"]))) 2).
  reflexivity.
Defined.

End JobListCards.

(** ** Cover Letters *)

Section CoverLettersFacts.

Import CoverLetters.

Lemma run_cons st ev evs :
  (run st (ev :: evs)).1 = (run (step st ev).1 evs).1.
Proof.
  simpl. destruct (step st ev) as [st1 out1]; simpl.
  destruct (run st1 evs); reflexivity.
Qed.

(** Between two reloads the list of letters only grows, and only at the
    front: after any events without a reload that came back, it is the
    letters generated meanwhile, newest first, followed by the list as it
    was. *)
Theorem letters_only_prepended st evs :
  no_reload evs = true ->
  coverLetters (run st evs).1 = rev (generated evs) ++ coverLetters st.
Proof.
  revert st. induction evs as [|ev evs IH]; intros st Hn; [reflexivity|].
  rewrite run_cons.
  destruct ev as [jobId|[data|]| |[r|]|letter|]; simpl in Hn; try discriminate;
    rewrite (IH _ Hn); simpl generated; simpl step.
  - by destruct (generate_enabled st jobId).
  - simpl. by rewrite <- app_assoc.
  - reflexivity.
  - by destruct (loading st).
  - reflexivity.
  - by destruct (negb (loading st) && bool_decide (letter ∈ coverLetters st)).
  - by destruct (negb (loading st)).
Qed.

Lemma letters_only_prepended_witness :
  coverLetters
    (run (fetchSettled (Some ([], [ {| jid := "j1"; title := "NLP engineer" |} ])) mount.1)
       [ClickGenerate "j1";
        GenerateSettled (Some {| id := "l1"; job_id := "j1"; job_title := "NLP engineer";
                                 company := "Acme"; content := "Dear team" |});
        ClickClose]).1
  = rev (generated
           [ClickGenerate "j1";
            GenerateSettled (Some {| id := "l1"; job_id := "j1";
                                     job_title := "NLP engineer";
                                     company := "Acme"; content := "Dear team" |});
            ClickClose])
    ++ coverLetters
         (fetchSettled (Some ([], [ {| jid := "j1"; title := "NLP engineer" |} ])) mount.1).
Proof.
  apply letters_only_prepended. reflexivity.
Defined.

(** The Word Count is one more than the number of spaces in the letter: an
    empty letter counts one word, and every further space adds one. *)
Theorem wordCount_spaces text : wordCount text = S (spaces text).
Proof.
  unfold wordCount. induction text as [|c text IH]; [reflexivity|].
  simpl. destruct (Ascii.eqb c " ").
  - simpl. by rewrite IH.
  - destruct (URLSearchParams.split_on " " text); simpl in *; lia.
Qed.




End CoverLettersFacts.

(** ** Applications: the status filter *)

Section ApplicationsFacts.

Import Applications URLSearchParams.



End ApplicationsFacts.

(** ** The API status indicator *)

Section AppFacts.

Import App.

(** The indicator shows the outcome of the last probe that came back, and
    keeps what it showed when none did: a click on Refresh sends a probe
    but never puts the indicator back to checking, so once a probe has come
    back the indicator never reads Checking again. *)
Theorem status_follows_last_outcome evs :
  (forall apiStatus,
      (run apiStatus evs).1
      = match last_outcome evs with
        | Some true => "connected"
        | Some false => "disconnected"
        | None => apiStatus
        end)
  /\ (last_outcome evs ≠ None ->
      status_label (run initialStatus evs).1 ≠ "Checking...").
Proof.
  assert (forall apiStatus,
             (run apiStatus evs).1
             = match last_outcome evs with
               | Some true => "connected"
               | Some false => "disconnected"
               | None => apiStatus
               end) as Hrun.
  { induction evs as [|ev evs IH]; intros apiStatus; [reflexivity|].
    simpl. destruct ev as [[]|]; simpl;
      match goal with |- context [run ?s evs] =>
        specialize (IH s); destruct (run s evs) as [st2 out2] end;
      simpl in *; rewrite IH; by destruct (last_outcome evs) as [[]|]. }
  split; [exact Hrun|].
  intros H. rewrite Hrun.
  destruct (last_outcome evs) as [[]|]; [discriminate|discriminate|done].
Qed.

Lemma status_follows_witness :
  status_label (run initialStatus [HealthSettled false; ClickRefresh; ClickRefresh]).1
  ≠ "Checking...".
Proof.
  apply (status_follows_last_outcome [HealthSettled false; ClickRefresh; ClickRefresh]).
  discriminate.
Defined.

End AppFacts.

(** ** Query strings read back *)

Section QueryRoundTrip.

Import URLSearchParams.

Lemma decode_bytes_unit c r :
  decode_bytes (encode_unit c +:+ r) = utf8 c ++ decode_bytes r.
Proof.
  destruct c as [[] [] [] [] [] [] [] []]; reflexivity.
Qed.

Lemma utf8_units_unit c bs : utf8_units (utf8 c ++ bs) = String c (utf8_units bs).
Proof.
  destruct c as [[] [] [] [] [] [] [] []]; reflexivity.
Qed.

Lemma decode_encode s : decode (encode s) = s.
Proof.
  unfold decode. induction s as [|c s IH]; [reflexivity|].
  simpl encode. rewrite decode_bytes_unit, utf8_units_unit. by rewrite IH.
Qed.

Lemma parse_toString ps : parse (toString ps) = ps.
Proof.
  unfold parse. rewrite raw_entries_toString, map_map.
  rewrite <- (map_id ps) at 2. apply map_ext. intros [n v]. simpl.
  by rewrite !decode_encode.
Qed.

(** Reading a serialised parameter list back gives the list itself, every
    name and value intact, whatever characters they hold; so the query
    strings of the Job List and Applications requests carry exactly the
    parameters the pages put in. *)
Theorem query_round_trip :
  (forall ps, parse (toString ps) = ps)
  /\ (forall filters,
         parse (JobList.fetchJobs_query filters) = JobList.fetchJobs_params filters)
  /\ (forall statusFilter,
         parse (Applications.fetchApplications_query statusFilter)
         = Applications.fetchApplications_params statusFilter).
Proof.
  split_and!; intros; apply parse_toString.
Qed.



End QueryRoundTrip.
